(** * Black engine, [display/Graphics.js]: command log and local bounds

    A shallow embedding of the [Graphics] drawing surface: the command
    queue filled by the path-building methods, the cursor they keep, and
    the single pass of [onGetLocalBounds] over that queue.

    Numbers.  The numbers of the program are read in two ways.

    The first part reads them as the real numbers [R] of the Standard
    Library: arithmetic is exact, [Math.sqrt], [Math.cos], [Math.sin] and
    [Math.PI] are [sqrt], [cos], [sin] and [PI], and the division
    [1 / (a * 2)] of [__bezierRange] has an explicit non-finite value.
    It carries what does not depend on rounding: which commands a call
    appends and in which order, what a call does to the cursor, how the
    pass walks the queue, and the geometry of [arc].

    The module [Binary64] reads them as what they are, IEEE 754 binary64
    numbers, with rounded sums and differences, infinities, NaN and the
    assertions of [Debug.isNumber].  It carries what depends on those: the
    box of [rect] after [fill()], the range of a cubic curve, and the
    decoder of shape scripts on tokens that are no numbers. *)

From Stdlib Require Import Reals Lra Lia List String Ascii Bool ZArith.
From Stdlib Require Floats.
From Equations Require Import Equations.
Import ListNotations.

Open Scope R_scope.

(** ** Comparisons as booleans

    The source branches on [<], [<=], [>], [>=] and [===] between numbers;
    the boolean versions below let its conditions be written with [&&] and
    [||] as they are in the source. *)

Definition Rltb (a b : R) : bool := if Rlt_dec a b then true else false.
Definition Rleb (a b : R) : bool := if Rle_dec a b then true else false.
Definition Rgtb (a b : R) : bool := Rltb b a.
Definition Rgeb (a b : R) : bool := Rleb b a.
Definition Reqb (a b : R) : bool := if Req_dec_T a b then true else false.

(** Decides every comparison of the goal and closes the arithmetic. *)
Ltac decide_R :=
  unfold Rgeb, Rgtb, Rleb, Rltb, Reqb, Rmin, Rmax in *;
  repeat match goal with
  | |- context [Rlt_dec ?a ?b] => destruct (Rlt_dec a b); try lra
  | |- context [Rle_dec ?a ?b] => destruct (Rle_dec a b); try lra
  | |- context [Req_dec_T ?a ?b] => destruct (Req_dec_T a b); try lra
  end.

(** ** Data model *)

(** [GraphicsCommandType]: the closed enumeration of command tags. *)
Inductive GraphicsCommandType : Set :=
| BEGIN_PATH | CLOSE_PATH | MOVE_TO | LINE_TO | ARC | RECT
| BEZIER_CURVE_TO | LINE_STYLE | FILL_STYLE | BOUNDS | FILL | STROKE.

(** An argument of a command: [__pushCommand(type, ...data)] stores numbers,
    the strings of the caps and joints styles, and the boolean of [arc]. *)
Inductive value : Type :=
| VNumber (r : R)
| VString (s : string)
| VBoolean (b : bool).

(** [GraphicsCommand]: [new GraphicsCommand(type, data)]. *)
Record GraphicsCommand : Type := mkCommand {
  type : GraphicsCommandType;
  data : list value
}.

(** Modelled from the spec: the class [GraphicsCommand] is missing from the
    sources; [getNumber(ix)] and [getString(ix)] read argument [ix] of the
    command.  Queues built by the drawing methods always hold a number at
    index 0 and a string at index 4 of a LINE_STYLE command; for any other
    shape of command the readers below answer [0] and the empty string. *)
Definition getNumber (cmd : GraphicsCommand) (ix : nat) : R :=
  match nth_error (data cmd) ix with
  | Some (VNumber r) => r
  | _ => 0
  end.

Definition getString (cmd : GraphicsCommand) (ix : nat) : string :=
  match nth_error (data cmd) ix with
  | Some (VString s) => s
  | _ => EmptyString
  end.

(** Modelled from the spec: the enumerations [CapsStyle] and [JointStyle]
    are missing from the sources; their members are string constants, the
    joint one the pass looks for being the one that denotes miter.  Only
    the members that the statements below name are given. *)
Module CapsStyle.
Definition ROUND : string := "round".
End CapsStyle.

Module JointStyle.
Definition MITER : string := "miter".
Definition ROUND : string := "round".
End JointStyle.

(** Modelled from the spec: [MathEx.PI2] is missing from the sources; it is
    the full turn, 2π. *)
Module MathEx.
Definition PI2 : R := PI * 2.
End MathEx.

(** [Vector]: the pair returned by [__bezierRange] and by
    [Circle.getCircumferencePoint]; [vx] and [vy] are its fields [x] and
    [y]. *)
Record Vector : Type := mkVector { vx : R; vy : R }.

(** Modelled from the spec: the class [Rectangle] is missing from the
    sources; it is an axis-aligned box with the fields x, y, width and
    height. *)
Record Rectangle : Type := mkRectangle {
  x : R;
  y : R;
  width : R;
  height : R
}.

(** The drawing surface: the fields set by the constructor, and the clip
    rectangle inherited from [DisplayObject] that [onGetLocalBounds] reads
    ([None] is [null]). *)
Record Graphics : Type := mkGraphics {
  mBounds : Rectangle;
  mCommandQueue : list GraphicsCommand;
  mPosX : R;
  mPosY : R;
  mPadding : R;
  mClipRect : option Rectangle
}.

(** [new Rectangle()]. *)
Definition newRectangle : Rectangle := mkRectangle 0 0 0 0.

(** [new Graphics()]: a fresh surface. *)
Definition newGraphics : Graphics :=
  mkGraphics newRectangle [] 0 0 0 None.

(** ** Rectangle operations *)

(** Modelled from the spec: the class [Rectangle] is missing from the
    sources.  [union(other)] produces the smallest rectangle containing
    both, and union with an empty rectangle is identity; a rectangle is
    taken to be empty when its width or its height is zero.  The receiver
    is tested first, so that the union of the empty running rectangle with
    a path's box is that box.  The source uses the method both for its
    effect on the receiver ([bounds.union(path.bounds)]) and for its result
    ([path.bounds = path.bounds.union(tmpBounds)]): the value below is the
    new value of the receiver and the value returned. *)
Definition isEmpty (r : Rectangle) : bool :=
  Reqb (width r) 0 || Reqb (height r) 0.

Definition union (this other : Rectangle) : Rectangle :=
  if isEmpty this then other
  else if isEmpty other then this
  else
    let x0 := Rmin (x this) (x other) in
    let y0 := Rmin (y this) (y other) in
    let x1 := Rmax (x this + width this) (x other + width other) in
    let y1 := Rmax (y this + height this) (y other + height other) in
    mkRectangle x0 y0 (x1 - x0) (y1 - y0).

(** Modelled from the spec: [inflate(dx, dy)] expands symmetrically,
    x -= dx, width += 2·dx, y -= dy, height += 2·dy. *)
Definition inflate (r : Rectangle) (dx dy : R) : Rectangle :=
  mkRectangle (x r - dx) (y r - dy) (width r + 2 * dx) (height r + 2 * dy).

(** Modelled from the spec: [Rectangle.fromPointsXY(points)] is a min/max
    sweep over a flat sequence of (x, y) pairs.  The sweep starts from the
    first pair, and a last coordinate without partner is not a pair.  What
    the method answers on no pair at all the spec does not say: the fresh
    rectangle stands for it, and no statement below rests on that case. *)
Fixpoint sweep (points : list R) (minX minY maxX maxY : R)
    : R * R * R * R :=
  match points with
  | px :: py :: rest =>
      sweep rest (Rmin minX px) (Rmin minY py) (Rmax maxX px) (Rmax maxY py)
  | _ => (minX, minY, maxX, maxY)
  end.

Definition fromPointsXY (points : list R) : Rectangle :=
  match points with
  | px :: py :: rest =>
      let '(minX, minY, maxX, maxY) := sweep rest px py px py in
      mkRectangle minX minY (maxX - minX) (maxY - minY)
  | _ => newRectangle
  end.

(** Modelled from the spec: [Circle.getCircumferencePoint(x, y, r, angle)]
    is missing from the sources; it is the standard circumference-point
    formula. *)
Module Circle.
Definition getCircumferencePoint (x y r angle : R) : Vector :=
  mkVector (x + r * cos angle) (y + r * sin angle).
End Circle.

(** ** Path builder *)

(** [__pushCommand(type, ...data)]. *)
Definition pushCommand (g : Graphics) (t : GraphicsCommandType)
    (args : list value) : Graphics :=
  mkGraphics (mBounds g) (mCommandQueue g ++ [mkCommand t args])
             (mPosX g) (mPosY g) (mPadding g) (mClipRect g).

(** The cursor assignments [this.mPosX = x; this.mPosY = y]. *)
Definition setPos (g : Graphics) (px py : R) : Graphics :=
  mkGraphics (mBounds g) (mCommandQueue g) px py (mPadding g) (mClipRect g).

(** [lineStyle(lineWidth, color, alpha, caps, joints, miterLimit)].  The
    defaults of the source are [0, 0, 1, CapsStyle.ROUND, JointStyle.ROUND,
    3]; a caller that omits arguments passes them here.  [Debug.isNumber]
    is an assertion that holds of every real number: the build and the
    value on which it fails are those of [Binary64.lineStyle]. *)
Definition lineStyle (g : Graphics) (lineWidth color alpha : R)
    (caps joints : string) (miterLimit : R) : Graphics :=
  if Rleb lineWidth 0 then g
  else pushCommand g LINE_STYLE
         [VNumber lineWidth; VNumber color; VNumber alpha;
          VString caps; VString joints; VNumber miterLimit].

(** [fillStyle(color, alpha)], defaults [0, 1]. *)
Definition fillStyle (g : Graphics) (color alpha : R) : Graphics :=
  pushCommand g FILL_STYLE [VNumber color; VNumber alpha].

(** [beginPath()], [closePath()], [stroke()], [fill()]. *)
Definition beginPath (g : Graphics) : Graphics := pushCommand g BEGIN_PATH [].
Definition closePath (g : Graphics) : Graphics := pushCommand g CLOSE_PATH [].
Definition stroke (g : Graphics) : Graphics := pushCommand g STROKE [].
Definition fill (g : Graphics) : Graphics := pushCommand g FILL [].

(** [clear()]: [mBounds.zero()], the cursor back at the origin, the queue
    emptied and reopened by [beginPath()]. *)
Definition clear (g : Graphics) : Graphics :=
  beginPath (mkGraphics newRectangle [] 0 0 (mPadding g) (mClipRect g)).

(** [moveTo(x, y)]. *)
Definition moveTo (g : Graphics) (x y : R) : Graphics :=
  let g := setPos g x y in
  pushCommand g MOVE_TO [VNumber x; VNumber y].

(** [lineTo(x, y)]: the cursor is assigned first, and the BOUNDS command
    then reads [this.mPosX] and [this.mPosY]. *)
Definition lineTo (g : Graphics) (x y : R) : Graphics :=
  let g := setPos g x y in
  let g := pushCommand g LINE_TO [VNumber x; VNumber y] in
  pushCommand g BOUNDS
    [VNumber (mPosX g); VNumber (mPosY g); VNumber x; VNumber y].

(** The remainder [a % b] of JavaScript: [a - b * trunc(a / b)], the
    quotient truncated towards zero. *)
Definition Rtrunc (r : R) : Z :=
  if Rleb 0 r then Int_part r else (- Int_part (- r))%Z.

Definition Rrem (a b : R) : R := a - b * IZR (Rtrunc (a / b)).

(** [while (end < start) end += MathEx.PI2]: the number of rounds left is
    the number of full turns between [end] and [start]. *)
Equations? extendEnd (start end_ : R) : R
    by wf (Z.to_nat (up ((start - end_) / MathEx.PI2))) lt :=
  extendEnd start end_ with Rlt_dec end_ start => {
    | left _ := extendEnd start (end_ + MathEx.PI2);
    | right _ := end_ }.
Proof.
  unfold MathEx.PI2.
  assert (Hpi : 0 < PI * 2) by (pose proof PI_RGT_0; lra).
  replace ((start - (end_ + PI * 2)) / (PI * 2))
    with ((start - end_) / (PI * 2) + IZR (-1)) by (field; lra).
  pose proof (archimed ((start - end_) / (PI * 2))) as [Hup _].
  assert (Hq : 0 < (start - end_) / (PI * 2))
    by (apply Rdiv_lt_0_compat; lra).
  assert (Hz : (0 < up ((start - end_) / (PI * 2)))%Z)
    by (apply lt_IZR; lra).
  rewrite <- (tech_up _ (up ((start - end_) / (PI * 2)) + -1)%Z).
  - lia.
  - rewrite plus_IZR. lra.
  - rewrite plus_IZR.
    pose proof (archimed ((start - end_) / (PI * 2))) as [_ Hle]. lra.
Qed.

(** The box of a partial arc (the [else] branch of [arc]): which of the
    four cardinal directions the sweep from [start] to [end] covers, and
    the projections of its two ends elsewhere. *)
Definition partialArcPoints (x y radius startAngle endAngle : R)
    (anticlockwise : bool) : list R :=
  let start :=
    Rrem startAngle MathEx.PI2
    + (if Rltb startAngle 0 then MathEx.PI2 else 0) in
  let end_ := endAngle in
  let '(start, end_) :=
    if anticlockwise then (endAngle, start) else (start, end_) in
  let end_ := extendEnd start end_ in
  let right := Reqb start 0 || Rgeb end_ MathEx.PI2 in
  let left := Rleb start PI && Rgeb end_ PI || Rgeb end_ (PI * 3) in
  let bottom :=
    Rleb start (PI * 0.5) && Rgeb end_ (PI * 0.5) || Rgeb end_ (PI * 2.5) in
  let top :=
    Rleb start (PI * 1.5) && Rgeb end_ (PI * 1.5) || Rgeb end_ (PI * 3.5) in
  let startCos := cos start * radius in
  let endCos := cos end_ * radius in
  let startSin := sin start * radius in
  let endSin := sin end_ * radius in
  let minX := if left then - radius else Rmin startCos endCos in
  let maxX := if right then radius else Rmax startCos endCos in
  let minY := if top then - radius else Rmin startSin endSin in
  let maxY := if bottom then radius else Rmax startSin endSin in
  [minX + x; minY + y; maxX + x; maxY + y].

(** What [arc] has decided when it reaches its [__pushCommand] calls. *)
Record ArcPlan : Type := mkArcPlan {
  needsMoveTo : bool;
  moveToX : R;
  moveToY : R;
  arcPoints : list R;
  arcEndAngle : R
}.

Definition arcPlan (x y radius startAngle endAngle : R)
    (anticlockwise : bool) : ArcPlan :=
  let diff := Rabs (startAngle - endAngle) in
  if Rgeb diff MathEx.PI2 then
    let end_ :=
      Circle.getCircumferencePoint x y radius (endAngle + PI * 0.5) in
    mkArcPlan true (vx end_) (vy end_)
      [x - radius; y - radius; x + radius; y + radius]
      (startAngle + MathEx.PI2)
  else
    mkArcPlan false 0 0
      (partialArcPoints x y radius startAngle endAngle anticlockwise)
      endAngle.

(** [arc(x, y, radius, startAngle, endAngle, anticlockwise)]. *)
Definition arc (g : Graphics) (x y radius startAngle endAngle : R)
    (anticlockwise : bool) : Graphics :=
  if Reqb startAngle endAngle then g
  else
    let p := arcPlan x y radius startAngle endAngle anticlockwise in
    let g := pushCommand g ARC
      [VNumber x; VNumber y; VNumber radius; VNumber startAngle;
       VNumber (arcEndAngle p); VBoolean anticlockwise] in
    let g := pushCommand g BOUNDS (map VNumber (arcPoints p)) in
    if needsMoveTo p
    then pushCommand g MOVE_TO [VNumber (moveToX p); VNumber (moveToY p)]
    else g.

(** [circle(x, y, radius)]. *)
Definition circle (g : Graphics) (x y radius : R) : Graphics :=
  let g := pushCommand g ARC
    [VNumber x; VNumber y; VNumber radius; VNumber 0;
     VNumber MathEx.PI2] in
  pushCommand g BOUNDS
    [VNumber (x - radius); VNumber (y - radius);
     VNumber (x + radius); VNumber (y + radius)].

(** [rect(x, y, width, height)]; [Debug.isNumber] as in [lineStyle]: the
    assertion of line 292 that can fail, and the rounding of the sums of
    line 295, are those of [Binary64.rect]. *)
Definition rect (g : Graphics) (x y width height : R) : Graphics :=
  let g := pushCommand g RECT
    [VNumber x; VNumber y; VNumber width; VNumber height] in
  pushCommand g BOUNDS
    [VNumber x; VNumber y; VNumber (x + width); VNumber (y + height)].

(** [__bezierDot(p0, p1, p2, p3, x)]. *)
Definition bezierDot (p0 p1 p2 p3 x : R) : R :=
  let y := 1 - x in
  p0 * y * y * y + 3 * p1 * x * y * y + 3 * p2 * x * x * y
  + p3 * x * x * x.

(** A number that may have left the finite ones: [1 / (a * 2)] is an
    infinity when [a * 2] is zero, and the product of an infinity with a
    number is an infinity or NaN. *)
Inductive number : Type :=
| Finite (r : R)
| NonFinite.

Definition inverse (d : R) : number :=
  if Reqb d 0 then NonFinite else Finite (1 / d).

Definition times (r : R) (n : number) : number :=
  match n with
  | Finite v => Finite (r * v)
  | NonFinite => NonFinite
  end.

(** [isFinite(v) ? v : d]. *)
Definition finiteOr (n : number) (d : R) : R :=
  match n with
  | Finite v => v
  | NonFinite => d
  end.

(** One root folded into the running range: the [if (x > 0 && x < 1)]
    blocks of [__bezierRange]. *)
Definition foldRoot (p0 p1 p2 p3 x : R) (range : R * R) : R * R :=
  let '(min, max) := range in
  if Rgtb x 0 && Rltb x 1 then
    let dot := bezierDot p0 p1 p2 p3 x in
    (Rmin dot min, Rmax dot max)
  else (min, max).

(** [__bezierRange(p0, p1, p2, p3, out)]: [vx] of the result is the
    minimum, [vy] the maximum.  The roots and the values folded in are
    exact here; rounded, they are those of [Binary64.bezierRange]. *)
Definition bezierRange (p0 p1 p2 p3 : R) : Vector :=
  let a := (p2 - 2 * p1 + p0) - (p3 - 2 * p2 + p1) in
  let b := 2 * (p1 - p0) - 2 * (p2 - p1) in
  let c := p0 - p1 in
  let discriminant := b * b - 4 * a * c in
  let min := Rmin p0 p3 in
  let max := Rmax p0 p3 in
  let '(min, max) :=
    if Rgeb discriminant 0 then
      let discRoot := sqrt discriminant in
      let inv2a := inverse (a * 2) in
      let x1 := times (- b + discRoot) inv2a in
      let x2 := times (- b - discRoot) inv2a in
      let x1 := finiteOr x1 0.5 in
      let x2 := finiteOr x2 0.5 in
      foldRoot p0 p1 p2 p3 x2 (foldRoot p0 p1 p2 p3 x1 (min, max))
    else (min, max) in
  mkVector min max.

(** [bezierCurveTo(cp1x, cp1y, cp2x, cp2y, x, y)]: both ranges are taken
    from the cursor before it is assigned. *)
Definition bezierCurveTo (g : Graphics) (cp1x cp1y cp2x cp2y x y : R)
    : Graphics :=
  let rangeX := bezierRange (mPosX g) cp1x cp2x x in
  let rangeY := bezierRange (mPosY g) cp1y cp2y y in
  let g := setPos g x y in
  let g := pushCommand g BEZIER_CURVE_TO
    [VNumber cp1x; VNumber cp1y; VNumber cp2x; VNumber cp2y;
     VNumber x; VNumber y] in
  pushCommand g BOUNDS
    [VNumber (vx rangeX); VNumber (vx rangeY);
     VNumber (vy rangeX); VNumber (vy rangeY)].

(** ** Bounds analyzer *)

(** [GraphicsPath]: the accumulator of one path ([None] is [null]). *)
Record GraphicsPath : Type := mkGraphicsPath {
  bounds : option Rectangle;
  points : list R;
  maxLineWidth : R;
  lastLineWidth : R;
  lineMult : R
}.

(** [new GraphicsPath()]. *)
Definition newGraphicsPath : GraphicsPath :=
  mkGraphicsPath None [] 0 0 0.5.

(** A number read out of a command's arguments.  The drawing methods put
    only numbers into a BOUNDS command; anything else reads as [0]. *)
Definition asNumber (v : value) : R :=
  match v with
  | VNumber r => r
  | _ => 0
  end.

(** [for (k = 0; k < cmd.data.length; k += 2)
      path.points.push(cmd.data[k], cmd.data[k + 1])]:
    the coordinates a BOUNDS command adds, two per round; a missing last
    partner, which no drawing method leaves out, reads as [0]. *)
Fixpoint pushedPoints (d : list value) : list R :=
  match d with
  | a :: b :: rest => asNumber a :: asNumber b :: pushedPoints rest
  | [a] => [asNumber a; 0]
  | [] => []
  end.

(** [path.bounds && bounds.union(path.bounds)]. *)
Definition unionPath (running : Rectangle) (path : GraphicsPath)
    : Rectangle :=
  match bounds path with
  | Some b => union running b
  | None => running
  end.

(** [path.bounds = path.bounds ? path.bounds.union(tmpBounds) : tmpBounds]. *)
Definition commit (path : GraphicsPath) (tmpBounds : Rectangle)
    : option Rectangle :=
  match bounds path with
  | Some b => Some (union b tmpBounds)
  | None => Some tmpBounds
  end.

(** The state of the pass: the running rectangle [bounds] and the current
    accumulator [path]. *)
Definition PassState : Type := (Rectangle * GraphicsPath)%type.

(** The LINE_STYLE case. *)
Definition stepLineStyle (path : GraphicsPath) (cmd : GraphicsCommand)
    : GraphicsPath :=
  let lastLineWidth := getNumber cmd 0 in
  let joints := getString cmd 4 in
  let lineMult :=
    if String.eqb joints JointStyle.MITER then 1 else lineMult path in
  mkGraphicsPath (bounds path) (points path) (maxLineWidth path)
                 lastLineWidth lineMult.

(** The STROKE case. *)
Definition stepStroke (path : GraphicsPath) : GraphicsPath :=
  let maxLineWidth :=
    if Rgtb (lastLineWidth path) (maxLineWidth path)
    then lastLineWidth path else maxLineWidth path in
  let maxLineWidth := if Reqb maxLineWidth 0 then 1 else maxLineWidth in
  let maxLineWidth := maxLineWidth * lineMult path in
  let tmpBounds := fromPointsXY (points path) in
  let tmpBounds :=
    if (2 <? List.length (points path))%nat
    then inflate tmpBounds maxLineWidth maxLineWidth else tmpBounds in
  mkGraphicsPath (commit path tmpBounds) (points path) maxLineWidth
                 (lastLineWidth path) (lineMult path).

(** The FILL case. *)
Definition stepFill (path : GraphicsPath) : GraphicsPath :=
  let tmpBounds := fromPointsXY (points path) in
  mkGraphicsPath (commit path tmpBounds) (points path) (maxLineWidth path)
                 (lastLineWidth path) (lineMult path).

(** The BOUNDS case. *)
Definition stepBounds (path : GraphicsPath) (cmd : GraphicsCommand)
    : GraphicsPath :=
  mkGraphicsPath (bounds path) (points path ++ pushedPoints (data cmd))
                 (maxLineWidth path) (lastLineWidth path) (lineMult path).

(** One round of the loop of [onGetLocalBounds]: the [switch (cmd.type)]. *)
Definition boundsStep (st : PassState) (cmd : GraphicsCommand) : PassState :=
  let '(running, path) := st in
  match type cmd with
  | BEGIN_PATH => (unionPath running path, newGraphicsPath)
  | BOUNDS => (running, stepBounds path cmd)
  | LINE_STYLE => (running, stepLineStyle path cmd)
  | FILL => (running, stepFill path)
  | STROKE => (running, stepStroke path)
  | _ => (running, path)
  end.

(** The loop over the queue, from a fresh rectangle and a fresh path. *)
Definition boundsPass (queue : list GraphicsCommand) : PassState :=
  fold_left boundsStep queue (newRectangle, newGraphicsPath).

(** The rectangle the pass ends with: the last path is united into the
    running rectangle. *)
Definition finishPass (st : PassState) : Rectangle :=
  unionPath (fst st) (snd st).

(** [onGetLocalBounds(outRect)]: the clip rectangle when there is one, the
    pass over the queue otherwise; the rectangle copied into [outRect] is
    the value returned. *)
Definition onGetLocalBounds (g : Graphics) : Rectangle :=
  match mClipRect g with
  | Some clip => clip
  | None => finishPass (boundsPass (mCommandQueue g))
  end.

(** ** Shape-script decoder *)

(** The document [JSON.parse(string)] returns: a list of shapes, each with
    its token stream. *)
Record Shape : Type := mkShape { commands : string }.
Record Document : Type := mkDocument { shapes : list Shape }.

(** [s.split(' ')]: the pieces between single spaces; a string without
    space, the empty one included, is one piece. *)
Fixpoint split (s : string) : list string :=
  match s with
  | EmptyString => [EmptyString]
  | String c rest =>
      if Ascii.eqb c " "%char then EmptyString :: split rest
      else match split rest with
           | piece :: pieces => String c piece :: pieces
           | [] => [String c EmptyString]
           end
  end.

(** [s.substring(from)]. *)
Definition substringFrom (from : nat) (s : string) : string :=
  String.substring from (String.length s - from) s.

(** [cmds.shift()]: the first token, [None] for [undefined] when the stream
    is exhausted, and the stream that is left. *)
Definition shift (cmds : list string) : option string * list string :=
  match cmds with
  | [] => (None, [])
  | c :: rest => (Some c, rest)
  end.

(** The white of [0xffffff]. *)
Definition white : R := 16777215.

Section Decoder.

(** The unary [+] of JavaScript on a token, or on [undefined] when
    [shift()] found the stream exhausted.  Which number a text denotes
    plays no part below, where only the commands of the queue are counted;
    a token that denotes no number, and the assertion of [rect] that then
    fails, are those of [Binary64.getArg] and [Binary64.rect]. *)
Variable toNumber : option string -> R.

(** [getArg(ci, commands)]: [ci] is the command token itself ([inl]) or an
    argument index ([inr]); the stream left after the call is returned with
    the number. *)
Definition getArg (ci : string + nat) (commands : list string)
    : R * list string :=
  match ci with
  | inr _ =>
      let '(token, commands) := shift commands in
      (toNumber token, commands)
  | inl ci =>
      (toNumber
         (Some (substringFrom (if String.prefix "$" ci then 2 else 1) ci)),
       commands)
  end.

(** The [if / else if] chain on the command token [c]: the geometry it
    adds and the stream it leaves. *)
Definition decodeCommand (g : Graphics) (c : string) (cmds : list string)
    : Graphics * list string :=
  if String.prefix "$s" c then (g, cmds)
  else if String.prefix "$r" c then
    let '(a0, cmds) := getArg (inl c) cmds in
    let '(a1, cmds) := getArg (inr 0%nat) cmds in
    let '(a2, cmds) := getArg (inr 1%nat) cmds in
    let '(a3, cmds) := getArg (inr 2%nat) cmds in
    (rect g a0 a1 a2 a3, cmds)
  else if String.prefix "$c" c then
    let '(a0, cmds) := getArg (inl c) cmds in
    let '(a1, cmds) := getArg (inr 0%nat) cmds in
    let '(a2, cmds) := getArg (inr 1%nat) cmds in
    (circle g a0 a1 a2, cmds)
  else (g, cmds).

Lemma shift_length (cmds : list string) :
  (List.length (snd (shift cmds)) <= List.length cmds)%nat.
Proof. destruct cmds; simpl; lia. Qed.

Lemma getArg_length (ci : string + nat) (cmds : list string) :
  (List.length (snd (getArg ci cmds)) <= List.length cmds)%nat.
Proof.
  destruct ci as [c | n]; simpl.
  - lia.
  - destruct cmds; simpl; lia.
Qed.

Lemma decodeCommand_length (g : Graphics) (c : string) (cmds : list string) :
  (List.length (snd (decodeCommand g c cmds)) <= List.length cmds)%nat.
Proof.
  unfold decodeCommand.
  destruct (String.prefix "$s" c); [simpl; lia |].
  destruct (String.prefix "$r" c).
  - destruct (getArg (inl c) cmds) as [a0 l0] eqn:E0.
    destruct (getArg (inr 0%nat) l0) as [a1 l1] eqn:E1.
    destruct (getArg (inr 1%nat) l1) as [a2 l2] eqn:E2.
    destruct (getArg (inr 2%nat) l2) as [a3 l3] eqn:E3.
    pose proof (getArg_length (inl c) cmds) as H0.
    pose proof (getArg_length (inr 0%nat) l0) as H1.
    pose proof (getArg_length (inr 1%nat) l1) as H2.
    pose proof (getArg_length (inr 2%nat) l2) as H3.
    rewrite E0 in H0. rewrite E1 in H1. rewrite E2 in H2. rewrite E3 in H3.
    simpl in *. lia.
  - destruct (String.prefix "$c" c); [| simpl; lia].
    destruct (getArg (inl c) cmds) as [a0 l0] eqn:E0.
    destruct (getArg (inr 0%nat) l0) as [a1 l1] eqn:E1.
    destruct (getArg (inr 1%nat) l1) as [a2 l2] eqn:E2.
    pose proof (getArg_length (inl c) cmds) as H0.
    pose proof (getArg_length (inr 0%nat) l0) as H1.
    pose proof (getArg_length (inr 1%nat) l1) as H2.
    rewrite E0 in H0. rewrite E1 in H1. rewrite E2 in H2.
    simpl in *. lia.
Qed.

(** The style reset at the head of every round of the loop:
    [g.beginPath(); g.lineStyle(0, 0xffffff); g.fillStyle(0xffffff)]. *)
Definition resetStyle (g : Graphics) : Graphics :=
  let g := beginPath g in
  let g := lineStyle g 0 white 1 CapsStyle.ROUND JointStyle.ROUND 3 in
  fillStyle g white 1.

(** [while (cmds.length > 0) { ... }]: one round resets the style, shifts
    the command token, runs its branch and fills. *)
Equations? decodeTokens (g : Graphics) (cmds : list string) : Graphics
    by wf (List.length cmds) lt :=
  decodeTokens g [] := g;
  decodeTokens g (c :: cmds) :=
    decodeTokens (fill (fst (decodeCommand (resetStyle g) c cmds)))
                 (snd (decodeCommand (resetStyle g) c cmds)).
Proof.
  pose proof (decodeCommand_length (resetStyle g) c cmds). simpl. lia.
Qed.

(** The body of [o.shapes.forEach]. *)
Definition decodeShape (g : Graphics) (shape : Shape) : Graphics :=
  decodeTokens g (split (commands shape)).

(** [Graphics.fromGCQ(string)], from the parsed document on. *)
Definition fromGCQ (o : Document) : Graphics :=
  fold_left decodeShape (shapes o) newGraphics.

End Decoder.

(** ** Vocabulary of the statements *)

(** The commands the pass does not look at. *)
Definition inert (cmd : GraphicsCommand) : bool :=
  match type cmd with
  | BEGIN_PATH | BOUNDS | LINE_STYLE | FILL | STROKE => false
  | _ => true
  end.

(** The call sequence of scenario B. *)
Definition scenarioB : Graphics :=
  let g := newGraphics in
  let g := lineStyle g 4 0 1 CapsStyle.ROUND JointStyle.MITER 3 in
  let g := moveTo g 0 0 in
  let g := lineTo g 10 0 in
  stroke g.

(** The queue scenario B would leave if the BOUNDS command of [lineTo]
    carried the cursor that preceded the call. *)
Definition scenarioB_described : list GraphicsCommand :=
  [mkCommand LINE_STYLE
     [VNumber 4; VNumber 0; VNumber 1; VString CapsStyle.ROUND;
      VString JointStyle.MITER; VNumber 3];
   mkCommand MOVE_TO [VNumber 0; VNumber 0];
   mkCommand LINE_TO [VNumber 10; VNumber 0];
   mkCommand BOUNDS [VNumber 0; VNumber 0; VNumber 10; VNumber 0];
   mkCommand STROKE []].

(** Two line styles in one path, miter first and round second. *)
Definition miterThenRound : Graphics :=
  let g := newGraphics in
  let g := lineStyle g 4 0 1 CapsStyle.ROUND JointStyle.MITER 3 in
  lineStyle g 4 0 1 CapsStyle.ROUND JointStyle.ROUND 3.

(** The commands of a call that gets past the early [return], in the order
    of the [__pushCommand] calls. *)
Definition arcCommands (x y radius startAngle endAngle : R)
    (anticlockwise : bool) : list GraphicsCommand :=
  let p := arcPlan x y radius startAngle endAngle anticlockwise in
  [mkCommand ARC
     [VNumber x; VNumber y; VNumber radius; VNumber startAngle;
      VNumber (arcEndAngle p); VBoolean anticlockwise];
   mkCommand BOUNDS (map VNumber (arcPoints p))]
  ++ (if needsMoveTo p
      then [mkCommand MOVE_TO [VNumber (moveToX p); VNumber (moveToY p)]]
      else []).

(** The BOUNDS command of the enclosing square of a circle. *)
Definition squareBounds (x y radius : R) : GraphicsCommand :=
  mkCommand BOUNDS
    [VNumber (x - radius); VNumber (y - radius);
     VNumber (x + radius); VNumber (y + radius)].

(** The claim of C6 on one call: nothing appended, cursor where it was. *)
Definition arcIsNoOp (g : Graphics) (x y radius startAngle endAngle : R)
    (anticlockwise : bool) : Prop :=
  let g' := arc g x y radius startAngle endAngle anticlockwise in
  mCommandQueue g' = mCommandQueue g
  /\ mPosX g' = mPosX g /\ mPosY g' = mPosY g.


(** What the style reset of a round appends: [lineStyle(0, 0xffffff)] is
    dropped by the guard of [lineStyle], so that no LINE_STYLE command is
    recorded and the line width the pass sees stays at zero;
    [fillStyle(0xffffff)] records the white fill with alpha 1. *)
Definition resetCommands : list GraphicsCommand :=
  [mkCommand BEGIN_PATH [];
   mkCommand FILL_STYLE [VNumber white; VNumber 1]].

(** The implicit fill that closes a round. *)
Definition fillCommand : GraphicsCommand := mkCommand FILL [].



(** A command code that selects no geometry: the style code [$s], or a
    code that is neither [$r] nor [$c]. *)
Definition inertCode (c : string) : Prop :=
  String.prefix "$s" c = true
  \/ (String.prefix "$r" c = false /\ String.prefix "$c" c = false).



(** The commands that commit the points of a path to its bounds. *)
Definition isCommit (cmd : GraphicsCommand) : bool :=
  match type cmd with
  | FILL | STROKE => true
  | _ => false
  end.

(** Two angles that name the same point of a circle. *)
Definition sameDirection (a b : R) : Prop :=
  cos a = cos b /\ sin a = sin b.

(** A call of one of the public drawing methods, and a run of calls on a
    surface. *)
Inductive Call : Type :=
| CallLineStyle (lineWidth color alpha : R) (caps joints : string)
                (miterLimit : R)
| CallFillStyle (color alpha : R)
| CallClear
| CallMoveTo (x y : R)
| CallLineTo (x y : R)
| CallArc (x y radius startAngle endAngle : R) (anticlockwise : bool)
| CallCircle (x y radius : R)
| CallRect (x y width height : R)
| CallBezierCurveTo (cp1x cp1y cp2x cp2y x y : R)
| CallBeginPath
| CallClosePath
| CallStroke
| CallFill.

Definition perform (g : Graphics) (call : Call) : Graphics :=
  match call with
  | CallLineStyle w c a caps joints limit =>
      lineStyle g w c a caps joints limit
  | CallFillStyle c a => fillStyle g c a
  | CallClear => clear g
  | CallMoveTo x y => moveTo g x y
  | CallLineTo x y => lineTo g x y
  | CallArc x y r s e acw => arc g x y r s e acw
  | CallCircle x y r => circle g x y r
  | CallRect x y w h => rect g x y w h
  | CallBezierCurveTo c1x c1y c2x c2y x y =>
      bezierCurveTo g c1x c1y c2x c2y x y
  | CallBeginPath => beginPath g
  | CallClosePath => closePath g
  | CallStroke => stroke g
  | CallFill => fill g
  end.

Definition performAll (g : Graphics) (calls : list Call) : Graphics :=
  fold_left perform calls g.

Definition isClear (call : Call) : bool :=
  match call with
  | CallClear => true
  | _ => false
  end.

(** The shape of the commands the pass reads arguments from: a BOUNDS
    command holds four numbers, a LINE_STYLE command holds a positive
    width first and the joints as its fifth argument. *)
Definition wellFormed (cmd : GraphicsCommand) : Prop :=
  match type cmd with
  | BOUNDS =>
      exists x1 y1 x2 y2 : R,
        data cmd = [VNumber x1; VNumber y1; VNumber x2; VNumber y2]
  | LINE_STYLE =>
      exists (w c a : R) (caps joints : string) (limit : R),
        data cmd = [VNumber w; VNumber c; VNumber a;
                    VString caps; VString joints; VNumber limit]
        /\ 0 < w
  | _ => True
  end.

(** * The program's numbers: binary64

    The numbers of the program are IEEE 754 binary64 values: sums and
    differences round, a division by zero is an infinity, and NaN answers
    [false] to every comparison.  The module below embeds, over the
    primitive binary64 numbers of the Standard Library, the methods whose
    results depend on that: [rect], [circle], the cubic curve, the pass of
    [onGetLocalBounds] and the shape-script decoder, with the assertions
    of [Debug.isNumber].  [arc] stays with the real numbers above, where
    [Math.cos] and [Math.sin] have a meaning. *)

Module Binary64.
Import PrimFloat.
Local Open Scope float_scope.

(** [Math.min(a, b)], [Math.max(a, b)]: NaN when an argument is NaN, and
    the negative zero below the positive one. *)
Module Math.
Definition min (a b : float) : float :=
  if is_nan a || is_nan b then nan
  else if a <? b then a
  else if b <? a then b
  else if get_sign a then a else b.

Definition max (a b : float) : float :=
  if is_nan a || is_nan b then nan
  else if a <? b then b
  else if b <? a then a
  else if get_sign a then b else a.

Definition sqrt (v : float) : float := PrimFloat.sqrt v.
End Math.

(** The global [isFinite(v)] on a number. *)
Definition isFinite (v : float) : bool := is_finite v.

(** Modelled from the spec: [MathEx.PI2] is missing from the sources; it is
    the full turn, [Math.PI * 2], the binary64 number 6.283185307179586. *)
Module MathEx.
Definition PI2 : float := 0x1.921fb54442d18p+2.
End MathEx.

(** The outcome of a call: the value it returns, or the exception of a
    failed assertion, which no code of the file catches. *)
Inductive outcome (A : Type) : Type :=
| Returns (a : A)
| Throws.

Arguments Returns {A} a.
Arguments Throws {A}.

Definition bind {A B : Type} (m : outcome A) (k : A -> outcome B)
    : outcome B :=
  match m with
  | Returns a => k a
  | Throws => Throws
  end.

Notation "x <- m ;; k" := (bind m (fun x => k))
  (at level 61, m at next level, right associativity).

(** Modelled from the spec: the class [Debug] is missing from the sources.
    [Debug.isNumber(...values)] is a precondition assertion, active in
    debug builds, where it fails fast on a value that is not numeric, and
    compiled out of production builds.  [debug] says which build runs, and
    [numeric] which values the assertion lets pass.  The spec says no more
    of [numeric] than its name: the statements below take it to let every
    finite number pass ([acceptsFinite]) and, where they say so, to stop
    NaN ([rejectsNaN]); what it does with an infinity is left open. *)
Module Debug.
Definition isNumber (debug : bool) (numeric : float -> bool)
    (values : list float) : outcome unit :=
  if debug && negb (forallb numeric values) then Throws else Returns tt.
End Debug.

(** The assertion lets every finite number pass. *)
Definition acceptsFinite (numeric : float -> bool) : Prop :=
  forall v : float, is_finite v = true -> numeric v = true.

(** The assertion stops NaN. *)
Definition rejectsNaN (numeric : float -> bool) : Prop :=
  forall v : float, is_nan v = true -> numeric v = false.

(** ** Data model

    The data of the first part, with binary64 numbers in the place of the
    reals. *)

Inductive value : Type :=
| VNumber (v : float)
| VString (s : string)
| VBoolean (b : bool).

Record GraphicsCommand : Type := mkCommand {
  type : GraphicsCommandType;
  data : list value
}.

(** Modelled from the spec: [getNumber(ix)] and [getString(ix)] of the
    missing class [GraphicsCommand] read argument [ix]; an argument that is
    not there, or not of the type asked for, reads as NaN and as the empty
    string. *)
Definition getNumber (cmd : GraphicsCommand) (ix : nat) : float :=
  match nth_error (data cmd) ix with
  | Some (VNumber v) => v
  | _ => nan
  end.

Definition getString (cmd : GraphicsCommand) (ix : nat) : string :=
  match nth_error (data cmd) ix with
  | Some (VString s) => s
  | _ => EmptyString
  end.

Record Vector : Type := mkVector { vx : float; vy : float }.

(** Modelled from the spec: the class [Rectangle] is missing from the
    sources. *)
Record Rectangle : Type := mkRectangle {
  x : float;
  y : float;
  width : float;
  height : float
}.

Record Graphics : Type := mkGraphics {
  mBounds : Rectangle;
  mCommandQueue : list GraphicsCommand;
  mPosX : float;
  mPosY : float;
  mPadding : float;
  mClipRect : option Rectangle
}.

Definition newRectangle : Rectangle := mkRectangle 0 0 0 0.

Definition newGraphics : Graphics :=
  mkGraphics newRectangle [] 0 0 0 None.

(** ** Rectangle operations *)

(** Modelled from the spec: [union(other)] produces the smallest rectangle
    containing both, and union with an empty rectangle is identity; a
    rectangle is empty when its width or its height is zero, and the
    receiver is tested first. *)
Definition isEmpty (r : Rectangle) : bool :=
  (width r =? 0) || (height r =? 0).

Definition union (this other : Rectangle) : Rectangle :=
  if isEmpty this then other
  else if isEmpty other then this
  else
    let x0 := Math.min (x this) (x other) in
    let y0 := Math.min (y this) (y other) in
    let x1 := Math.max (x this + width this) (x other + width other) in
    let y1 := Math.max (y this + height this) (y other + height other) in
    mkRectangle x0 y0 (x1 - x0) (y1 - y0).

(** Modelled from the spec: [inflate(dx, dy)], x -= dx, width += 2·dx,
    y -= dy, height += 2·dy. *)
Definition inflate (r : Rectangle) (dx dy : float) : Rectangle :=
  mkRectangle (x r - dx) (y r - dy) (width r + 2 * dx) (height r + 2 * dy).

(** Modelled from the spec: [Rectangle.fromPointsXY(points)] is a min/max
    sweep over a flat sequence of (x, y) pairs; the width and the height
    are the differences of the extremes, rounded as every difference is.
    The sweep starts from the first pair.  What the method answers on no
    pair at all the spec does not say: the fresh rectangle stands for it
    here, and no statement below rests on that case. *)
Fixpoint sweep (points : list float) (minX minY maxX maxY : float)
    : float * float * float * float :=
  match points with
  | px :: py :: rest =>
      sweep rest (Math.min minX px) (Math.min minY py)
                 (Math.max maxX px) (Math.max maxY py)
  | _ => (minX, minY, maxX, maxY)
  end.

Definition fromPointsXY (points : list float) : Rectangle :=
  match points with
  | px :: py :: rest =>
      let '(minX, minY, maxX, maxY) := sweep rest px py px py in
      mkRectangle minX minY (maxX - minX) (maxY - minY)
  | _ => newRectangle
  end.

(** ** Path builder

    [__pushCommand], the cursor assignments and the methods without
    arithmetic are those of the first part. *)

Definition pushCommand (g : Graphics) (t : GraphicsCommandType)
    (args : list value) : Graphics :=
  mkGraphics (mBounds g) (mCommandQueue g ++ [mkCommand t args])
             (mPosX g) (mPosY g) (mPadding g) (mClipRect g).

Definition setPos (g : Graphics) (px py : float) : Graphics :=
  mkGraphics (mBounds g) (mCommandQueue g) px py (mPadding g) (mClipRect g).

Definition beginPath (g : Graphics) : Graphics := pushCommand g BEGIN_PATH [].
Definition stroke (g : Graphics) : Graphics := pushCommand g STROKE [].
Definition fill (g : Graphics) : Graphics := pushCommand g FILL [].

Definition moveTo (g : Graphics) (x y : float) : Graphics :=
  let g := setPos g x y in
  pushCommand g MOVE_TO [VNumber x; VNumber y].

(** [circle(x, y, radius)]: no assertion guards its arguments. *)
Definition circle (g : Graphics) (x y radius : float) : Graphics :=
  let g := pushCommand g ARC
    [VNumber x; VNumber y; VNumber radius; VNumber 0;
     VNumber MathEx.PI2] in
  pushCommand g BOUNDS
    [VNumber (x - radius); VNumber (y - radius);
     VNumber (x + radius); VNumber (y + radius)].

Section Build.

(** The build that runs, [true] for a debug build, and the values its
    assertions let pass. *)
Variable debug : bool.
Variable numeric : float -> bool.

(** [lineStyle(lineWidth, color, alpha, caps, joints, miterLimit)]: the
    assertion first, then the guard [lineWidth <= 0], which NaN passes. *)
Definition lineStyle (g : Graphics) (lineWidth color alpha : float)
    (caps joints : string) (miterLimit : float) : outcome Graphics :=
  _ <- Debug.isNumber debug numeric [lineWidth; color; alpha; miterLimit] ;;
  if lineWidth <=? 0 then Returns g
  else Returns (pushCommand g LINE_STYLE
         [VNumber lineWidth; VNumber color; VNumber alpha;
          VString caps; VString joints; VNumber miterLimit]).

(** [fillStyle(color, alpha)]. *)
Definition fillStyle (g : Graphics) (color alpha : float)
    : outcome Graphics :=
  _ <- Debug.isNumber debug numeric [color; alpha] ;;
  Returns (pushCommand g FILL_STYLE [VNumber color; VNumber alpha]).

(** [rect(x, y, width, height)]: the assertion of line 292, then the RECT
    command and the BOUNDS command of the two corners, the far one
    computed by the rounded sums [x + width] and [y + height]. *)
Definition rect (g : Graphics) (x y width height : float)
    : outcome Graphics :=
  _ <- Debug.isNumber debug numeric [x; y; width; height] ;;
  let g := pushCommand g RECT
    [VNumber x; VNumber y; VNumber width; VNumber height] in
  Returns (pushCommand g BOUNDS
    [VNumber x; VNumber y; VNumber (x + width); VNumber (y + height)]).

End Build.

(** [__bezierDot(p0, p1, p2, p3, x)]. *)
Definition bezierDot (p0 p1 p2 p3 x : float) : float :=
  let y := 1 - x in
  p0 * y * y * y + 3 * p1 * x * y * y + 3 * p2 * x * x * y
  + p3 * x * x * x.

(** One root folded into the running range: the [if (x > 0 && x < 1)]
    blocks of [__bezierRange]. *)
Definition foldRoot (p0 p1 p2 p3 x : float) (range : float * float)
    : float * float :=
  let '(min, max) := range in
  if (0 <? x) && (x <? 1) then
    let dot := bezierDot p0 p1 p2 p3 x in
    (Math.min dot min, Math.max dot max)
  else (min, max).

(** [__bezierRange(p0, p1, p2, p3, out)]: [vx] of the result is the
    minimum, [vy] the maximum. *)
Definition bezierRange (p0 p1 p2 p3 : float) : Vector :=
  let a := (p2 - 2 * p1 + p0) - (p3 - 2 * p2 + p1) in
  let b := 2 * (p1 - p0) - 2 * (p2 - p1) in
  let c := p0 - p1 in
  let discriminant := b * b - 4 * a * c in
  let min := Math.min p0 p3 in
  let max := Math.max p0 p3 in
  let '(min, max) :=
    if 0 <=? discriminant then
      let discRoot := Math.sqrt discriminant in
      let inv2a := 1 / (a * 2) in
      let x1 := (- b + discRoot) * inv2a in
      let x2 := (- b - discRoot) * inv2a in
      let x1 := if isFinite x1 then x1 else 0.5 in
      let x2 := if isFinite x2 then x2 else 0.5 in
      foldRoot p0 p1 p2 p3 x2 (foldRoot p0 p1 p2 p3 x1 (min, max))
    else (min, max) in
  mkVector min max.

(** [bezierCurveTo(cp1x, cp1y, cp2x, cp2y, x, y)]. *)
Definition bezierCurveTo (g : Graphics) (cp1x cp1y cp2x cp2y x y : float)
    : Graphics :=
  let rangeX := bezierRange (mPosX g) cp1x cp2x x in
  let rangeY := bezierRange (mPosY g) cp1y cp2y y in
  let g := setPos g x y in
  let g := pushCommand g BEZIER_CURVE_TO
    [VNumber cp1x; VNumber cp1y; VNumber cp2x; VNumber cp2y;
     VNumber x; VNumber y] in
  pushCommand g BOUNDS
    [VNumber (vx rangeX); VNumber (vx rangeY);
     VNumber (vy rangeX); VNumber (vy rangeY)].

(** ** Bounds analyzer *)

Record GraphicsPath : Type := mkGraphicsPath {
  bounds : option Rectangle;
  points : list float;
  maxLineWidth : float;
  lastLineWidth : float;
  lineMult : float
}.

Definition newGraphicsPath : GraphicsPath :=
  mkGraphicsPath None [] 0 0 0.5.

(** A number read out of a command's arguments; what is not a number, or
    not there ([undefined]), counts as NaN in the arithmetic of the
    sweep. *)
Definition asNumber (v : value) : float :=
  match v with
  | VNumber r => r
  | _ => nan
  end.

(** [for (k = 0; k < cmd.data.length; k += 2)
      path.points.push(cmd.data[k], cmd.data[k + 1])]. *)
Fixpoint pushedPoints (d : list value) : list float :=
  match d with
  | a :: b :: rest => asNumber a :: asNumber b :: pushedPoints rest
  | [a] => [asNumber a; nan]
  | [] => []
  end.

(** [path.bounds && bounds.union(path.bounds)]. *)
Definition unionPath (running : Rectangle) (path : GraphicsPath)
    : Rectangle :=
  match bounds path with
  | Some b => union running b
  | None => running
  end.

(** [path.bounds = path.bounds ? path.bounds.union(tmpBounds) : tmpBounds]. *)
Definition commit (path : GraphicsPath) (tmpBounds : Rectangle)
    : option Rectangle :=
  match bounds path with
  | Some b => Some (union b tmpBounds)
  | None => Some tmpBounds
  end.

Definition PassState : Type := (Rectangle * GraphicsPath)%type.

(** The LINE_STYLE case. *)
Definition stepLineStyle (path : GraphicsPath) (cmd : GraphicsCommand)
    : GraphicsPath :=
  let lastLineWidth := getNumber cmd 0 in
  let joints := getString cmd 4 in
  let lineMult :=
    if String.eqb joints JointStyle.MITER then 1 else lineMult path in
  mkGraphicsPath (bounds path) (points path) (maxLineWidth path)
                 lastLineWidth lineMult.

(** The STROKE case. *)
Definition stepStroke (path : GraphicsPath) : GraphicsPath :=
  let maxLineWidth :=
    if maxLineWidth path <? lastLineWidth path
    then lastLineWidth path else maxLineWidth path in
  let maxLineWidth := if maxLineWidth =? 0 then 1 else maxLineWidth in
  let maxLineWidth := maxLineWidth * lineMult path in
  let tmpBounds := fromPointsXY (points path) in
  let tmpBounds :=
    if (2 <? List.length (points path))%nat
    then inflate tmpBounds maxLineWidth maxLineWidth else tmpBounds in
  mkGraphicsPath (commit path tmpBounds) (points path) maxLineWidth
                 (lastLineWidth path) (lineMult path).

(** The FILL case. *)
Definition stepFill (path : GraphicsPath) : GraphicsPath :=
  let tmpBounds := fromPointsXY (points path) in
  mkGraphicsPath (commit path tmpBounds) (points path) (maxLineWidth path)
                 (lastLineWidth path) (lineMult path).

(** The BOUNDS case. *)
Definition stepBounds (path : GraphicsPath) (cmd : GraphicsCommand)
    : GraphicsPath :=
  mkGraphicsPath (bounds path) (points path ++ pushedPoints (data cmd))
                 (maxLineWidth path) (lastLineWidth path) (lineMult path).

(** One round of the loop of [onGetLocalBounds]. *)
Definition boundsStep (st : PassState) (cmd : GraphicsCommand) : PassState :=
  let '(running, path) := st in
  match type cmd with
  | BEGIN_PATH => (unionPath running path, newGraphicsPath)
  | BOUNDS => (running, stepBounds path cmd)
  | LINE_STYLE => (running, stepLineStyle path cmd)
  | FILL => (running, stepFill path)
  | STROKE => (running, stepStroke path)
  | _ => (running, path)
  end.

Definition boundsPass (queue : list GraphicsCommand) : PassState :=
  fold_left boundsStep queue (newRectangle, newGraphicsPath).

Definition finishPass (st : PassState) : Rectangle :=
  unionPath (fst st) (snd st).

(** [onGetLocalBounds(outRect)]. *)
Definition onGetLocalBounds (g : Graphics) : Rectangle :=
  match mClipRect g with
  | Some clip => clip
  | None => finishPass (boundsPass (mCommandQueue g))
  end.

(** ** Shape-script decoder *)

(** The white of [0xffffff]. *)
Definition white : float := 16777215.

Section Decoder.

Variable debug : bool.
Variable numeric : float -> bool.

(** The unary [+] of JavaScript on the text of a token; which number a
    text denotes is left open. *)
Variable toNumber : string -> float.

(** The unary [+] on what [shift()] returned: on [undefined], when the
    stream was exhausted, it is NaN. *)
Definition plus (token : option string) : float :=
  match token with
  | Some s => toNumber s
  | None => nan
  end.

(** [getArg(ci, commands)]: [ci] is the command token itself ([inl]) or an
    argument index ([inr]); the stream left after the call is returned with
    the number. *)
Definition getArg (ci : string + nat) (commands : list string)
    : float * list string :=
  match ci with
  | inr _ =>
      let '(token, commands) := shift commands in
      (plus token, commands)
  | inl ci =>
      (toNumber (substringFrom (if String.prefix "$" ci then 2 else 1) ci),
       commands)
  end.

(** The [if / else if] chain on the command token [c]: what the call it
    selects does to the surface, and the stream left once its arguments
    are taken. *)
Definition decodeCommand (g : Graphics) (c : string) (cmds : list string)
    : outcome Graphics * list string :=
  if String.prefix "$s" c then (Returns g, cmds)
  else if String.prefix "$r" c then
    let '(a0, cmds) := getArg (inl c) cmds in
    let '(a1, cmds) := getArg (inr 0%nat) cmds in
    let '(a2, cmds) := getArg (inr 1%nat) cmds in
    let '(a3, cmds) := getArg (inr 2%nat) cmds in
    (rect debug numeric g a0 a1 a2 a3, cmds)
  else if String.prefix "$c" c then
    let '(a0, cmds) := getArg (inl c) cmds in
    let '(a1, cmds) := getArg (inr 0%nat) cmds in
    let '(a2, cmds) := getArg (inr 1%nat) cmds in
    (Returns (circle g a0 a1 a2), cmds)
  else (Returns g, cmds).

(** The style reset at the head of every round of the loop:
    [g.beginPath(); g.lineStyle(0, 0xffffff); g.fillStyle(0xffffff)]. *)
Definition resetStyle (g : Graphics) : outcome Graphics :=
  let g := beginPath g in
  g <- lineStyle debug numeric g 0 white 1 CapsStyle.ROUND JointStyle.ROUND 3 ;;
  fillStyle debug numeric g white 1.

(** The body of the loop once [c] is shifted off the stream: the reset,
    the branch of the command token, [g.fill()]. *)
Definition decodeRound (g : Graphics) (c : string) (cmds : list string)
    : outcome Graphics * list string :=
  match resetStyle g with
  | Returns g =>
      let '(r, cmds) := decodeCommand g c cmds in
      (g <- r ;; Returns (fill g), cmds)
  | Throws => (Throws, cmds)
  end.

Lemma getArg_shortens (ci : string + nat) (cmds : list string) :
  (List.length (snd (getArg ci cmds)) <= List.length cmds)%nat.
Proof.
  destruct ci as [c | n]; simpl.
  - lia.
  - destruct cmds; simpl; lia.
Qed.

Lemma decodeCommand_shortens (g : Graphics) (c : string) (cmds : list string) :
  (List.length (snd (decodeCommand g c cmds)) <= List.length cmds)%nat.
Proof.
  unfold decodeCommand.
  destruct (String.prefix "$s" c); [simpl; lia |].
  destruct (String.prefix "$r" c).
  - destruct (getArg (inl c) cmds) as [a0 l0] eqn:E0.
    destruct (getArg (inr 0%nat) l0) as [a1 l1] eqn:E1.
    destruct (getArg (inr 1%nat) l1) as [a2 l2] eqn:E2.
    destruct (getArg (inr 2%nat) l2) as [a3 l3] eqn:E3.
    pose proof (getArg_shortens (inl c) cmds) as H0.
    pose proof (getArg_shortens (inr 0%nat) l0) as H1.
    pose proof (getArg_shortens (inr 1%nat) l1) as H2.
    pose proof (getArg_shortens (inr 2%nat) l2) as H3.
    rewrite E0 in H0. rewrite E1 in H1. rewrite E2 in H2. rewrite E3 in H3.
    simpl in *. lia.
  - destruct (String.prefix "$c" c); [| simpl; lia].
    destruct (getArg (inl c) cmds) as [a0 l0] eqn:E0.
    destruct (getArg (inr 0%nat) l0) as [a1 l1] eqn:E1.
    destruct (getArg (inr 1%nat) l1) as [a2 l2] eqn:E2.
    pose proof (getArg_shortens (inl c) cmds) as H0.
    pose proof (getArg_shortens (inr 0%nat) l0) as H1.
    pose proof (getArg_shortens (inr 1%nat) l1) as H2.
    rewrite E0 in H0. rewrite E1 in H1. rewrite E2 in H2.
    simpl in *. lia.
Qed.

Lemma decodeRound_shortens (g : Graphics) (c : string) (cmds : list string) :
  (List.length (snd (decodeRound g c cmds)) <= List.length cmds)%nat.
Proof.
  unfold decodeRound. destruct (resetStyle g) as [g' |]; [| simpl; lia].
  pose proof (decodeCommand_shortens g' c cmds) as H.
  destruct (decodeCommand g' c cmds) as [r l]. exact H.
Qed.

(** [while (cmds.length > 0) { ... }]: a round that throws ends the loop
    with its exception. *)
Equations? decodeTokens (g : Graphics) (cmds : list string)
    : outcome Graphics by wf (List.length cmds) lt :=
  decodeTokens g [] := Returns g;
  decodeTokens g (c :: cmds) with fst (decodeRound g c cmds) := {
    | Throws := Throws;
    | Returns g' := decodeTokens g' (snd (decodeRound g c cmds)) }.
Proof.
  pose proof (decodeRound_shortens g c cmds). simpl. lia.
Qed.

(** The body of [o.shapes.forEach]. *)
Definition decodeShape (g : Graphics) (shape : Shape) : outcome Graphics :=
  decodeTokens g (split (commands shape)).

(** [Graphics.fromGCQ(string)], from the parsed document on: an exception
    in one shape leaves [forEach] and the function. *)
Definition fromGCQ (o : Document) : outcome Graphics :=
  fold_left (fun r shape => g <- r ;; decodeShape g shape)
            (shapes o) (Returns newGraphics).

End Decoder.

(** ** Numbers of the examples *)

(** The binary64 numbers nearest to 0.1 and to 0.3, and the two that the
    examples meet below them: 0.09999999999999964 and
    0.29999999999999993. *)
Definition tenth : float := 0x1.999999999999ap-4.
Definition belowTenth : float := 0x1.999999999998p-4.

(** The unary plus on the texts of the examples: the empty text is 0, a
    text of decimal digits is the number it writes, and a text with a
    letter in it is NaN.  Signs, fractions, exponents and blanks, which
    the examples do not contain, are not read: on such texts this is not
    the unary plus. *)
Definition digit (c : ascii) : option float :=
  let code := nat_of_ascii c in
  if ((48 <=? code) && (code <=? 57))%nat
  then Some (nth (code - 48)%nat [0; 1; 2; 3; 4; 5; 6; 7; 8; 9] nan)
  else None.

Fixpoint digitsFrom (acc : float) (s : string) : float :=
  match s with
  | EmptyString => acc
  | String c rest =>
      match digit c with
      | Some d => digitsFrom (acc * 10 + d) rest
      | None => nan
      end
  end.

Definition sampleNumber (s : string) : float := digitsFrom 0 s.

(** ** Vocabulary of the statements *)

(** The surface with the commands [cmds] appended to its queue. *)
Definition appended (g : Graphics) (cmds : list GraphicsCommand) : Graphics :=
  mkGraphics (mBounds g) (mCommandQueue g ++ cmds)
             (mPosX g) (mPosY g) (mPadding g) (mClipRect g).

(** What the style reset of a round appends: [lineStyle(0, 0xffffff)] is
    dropped by the guard of [lineStyle], [fillStyle(0xffffff)] records the
    white fill with alpha 1. *)
Definition resetCommands : list GraphicsCommand :=
  [mkCommand BEGIN_PATH [];
   mkCommand FILL_STYLE [VNumber white; VNumber 1]].

(** The implicit fill that closes a round. *)
Definition fillCommand : GraphicsCommand := mkCommand FILL [].

(** What [rect] and [circle] append. *)
Definition rectCommands (x y w h : float) : list GraphicsCommand :=
  [mkCommand RECT [VNumber x; VNumber y; VNumber w; VNumber h];
   mkCommand BOUNDS
     [VNumber x; VNumber y; VNumber (x + w); VNumber (y + h)]].

Definition circleCommands (x y r : float) : list GraphicsCommand :=
  [mkCommand ARC
     [VNumber x; VNumber y; VNumber r; VNumber 0; VNumber MathEx.PI2];
   mkCommand BOUNDS
     [VNumber (x - r); VNumber (y - r); VNumber (x + r); VNumber (y + r)]].

(** The commands of a round put before the outcome of the rounds that
    follow it. *)
Definition before (cmds : list GraphicsCommand)
    (r : outcome (list GraphicsCommand)) : outcome (list GraphicsCommand) :=
  match r with
  | Returns rest => Returns (cmds ++ rest)
  | Throws => Throws
  end.

(** The surface after a run of rounds, or their exception. *)
Definition extended (g : Graphics) (r : outcome (list GraphicsCommand))
    : outcome Graphics :=
  match r with
  | Returns cmds => Returns (appended g cmds)
  | Throws => Throws
  end.

(** The factor by which the STROKE case scales the line width, after one
    LINE_STYLE command with the given joints on a fresh accumulator. *)
Definition jointMultiplier (joints : string) : float :=
  if String.eqb joints JointStyle.MITER then 1 else 0.5.

Section Replay.

Variable debug : bool.
Variable numeric : float -> bool.
Variable toNumber : string -> float.

(** The first argument of a command: the number written after the two
    characters of its code.  The argument [k] places after the command
    token: the number of that token, NaN when the stream ends before
    it. *)
Definition codeNumber (c : string) : float := toNumber (substringFrom 2 c).

Definition argument (cmds : list string) (k : nat) : float :=
  plus toNumber (nth_error cmds k).

(** The assertion of [rect] fails: a debug build, and an argument that it
    does not let pass. *)
Definition rejected (x y w h : float) : bool :=
  debug && negb (forallb numeric [x; y; w; h]).

(** What the decoder makes of a token stream, round by round: the
    commands it appends, or the exception it ends with.  A style code, and
    a code that is neither [$r] nor [$c], takes no argument and adds no
    geometry; [$r] takes the number after its code and the next three
    tokens and calls [rect]; [$c] takes the number after its code and the
    next two tokens and calls [circle]. *)
Inductive replay : list string -> outcome (list GraphicsCommand) -> Prop :=
| replay_end :
    replay [] (Returns [])
| replay_inert (c : string) (cmds : list string) r :
    inertCode c ->
    replay cmds r ->
    replay (c :: cmds) (before (resetCommands ++ [fillCommand]) r)
| replay_rect (c : string) (cmds : list string) r :
    String.prefix "$s" c = false -> String.prefix "$r" c = true ->
    rejected (codeNumber c) (argument cmds 0) (argument cmds 1)
             (argument cmds 2) = false ->
    replay (skipn 3 cmds) r ->
    replay (c :: cmds)
      (before (resetCommands
               ++ rectCommands (codeNumber c) (argument cmds 0)
                    (argument cmds 1) (argument cmds 2)
               ++ [fillCommand]) r)
| replay_rect_throws (c : string) (cmds : list string) :
    String.prefix "$s" c = false -> String.prefix "$r" c = true ->
    rejected (codeNumber c) (argument cmds 0) (argument cmds 1)
             (argument cmds 2) = true ->
    replay (c :: cmds) Throws
| replay_circle (c : string) (cmds : list string) r :
    String.prefix "$s" c = false -> String.prefix "$r" c = false ->
    String.prefix "$c" c = true ->
    replay (skipn 2 cmds) r ->
    replay (c :: cmds)
      (before (resetCommands
               ++ circleCommands (codeNumber c) (argument cmds 0)
                    (argument cmds 1)
               ++ [fillCommand]) r).

End Replay.




End Binary64.

(** The order of the binary64 numbers, read off their representation: a
    number that is not NaN is placed by its sign class, its exponent and
    its mantissa, compared in that order. *)
Module FloatOrder.
Import SpecFloat.

Definition key (f : spec_float) : Z * Z * Z :=
  match f with
  | S754_nan => (0, 0, 0)%Z
  | S754_zero _ => (0, 0, 0)%Z
  | S754_infinity s => if s then (-2, 0, 0)%Z else (2, 0, 0)%Z
  | S754_finite s m e =>
      if s then (-1, - e, Zneg m)%Z else (1, e, Zpos m)%Z
  end.

Definition lex (a b : Z * Z * Z) : comparison :=
  let '(a1, a2, a3) := a in
  let '(b1, b2, b3) := b in
  match Z.compare a1 b1 with
  | Eq => match Z.compare a2 b2 with
          | Eq => Z.compare a3 b3
          | c => c
          end
  | c => c
  end.

Definition notNan (f : spec_float) : bool :=
  match f with
  | S754_nan => false
  | _ => true
  end.

End FloatOrder.

(** * Properties *)

(** ** Comparisons *)

Lemma Rltb_true a b : Rltb a b = true <-> a < b.
Proof. unfold Rltb; destruct (Rlt_dec a b); split; intros; try easy. Qed.

Lemma Rltb_false a b : Rltb a b = false <-> ~ a < b.
Proof. unfold Rltb; destruct (Rlt_dec a b); split; intros; try easy. Qed.

Lemma Rleb_true a b : Rleb a b = true <-> a <= b.
Proof. unfold Rleb; destruct (Rle_dec a b); split; intros; try easy. Qed.

Lemma Rleb_false a b : Rleb a b = false <-> ~ a <= b.
Proof. unfold Rleb; destruct (Rle_dec a b); split; intros; try easy. Qed.

Lemma Reqb_true a b : Reqb a b = true <-> a = b.
Proof. unfold Reqb; destruct (Req_dec_T a b); split; intros; try easy. Qed.

Lemma Reqb_false a b : Reqb a b = false <-> a <> b.
Proof. unfold Reqb; destruct (Req_dec_T a b); split; intros; try easy. Qed.

Lemma Rltb_spec a b : reflect (a < b) (Rltb a b).
Proof. unfold Rltb; destruct (Rlt_dec a b); constructor; assumption. Qed.

Lemma Rleb_spec a b : reflect (a <= b) (Rleb a b).
Proof. unfold Rleb; destruct (Rle_dec a b); constructor; assumption. Qed.

Lemma Reqb_spec a b : reflect (a = b) (Reqb a b).
Proof. unfold Reqb; destruct (Req_dec_T a b); constructor; assumption. Qed.

(** ** Frame lemmas of the builder *)

Lemma pushCommand_queue (g : Graphics) t args :
  mCommandQueue (pushCommand g t args) =
  mCommandQueue g ++ [mkCommand t args].
Proof. reflexivity. Qed.

Lemma pushCommand_pos (g : Graphics) t args :
  mPosX (pushCommand g t args) = mPosX g
  /\ mPosY (pushCommand g t args) = mPosY g.
Proof. split; reflexivity. Qed.

Lemma pushCommand_clip (g : Graphics) t args :
  mClipRect (pushCommand g t args) = mClipRect g.
Proof. reflexivity. Qed.

(** What [lineTo] appends, for every surface and every target. *)
Lemma lineTo_queue (g : Graphics) (x y : R) :
  mCommandQueue (lineTo g x y) =
  mCommandQueue g ++
    [mkCommand LINE_TO [VNumber x; VNumber y];
     mkCommand BOUNDS [VNumber x; VNumber y; VNumber x; VNumber y]].
Proof.
  unfold lineTo, pushCommand, setPos; simpl.
  rewrite <- app_assoc. reflexivity.
Qed.

(** A positive width is recorded, a width of zero or less is dropped. *)
Lemma lineStyle_positive (g : Graphics) w color alpha caps joints limit :
  0 < w ->
  lineStyle g w color alpha caps joints limit =
  pushCommand g LINE_STYLE
    [VNumber w; VNumber color; VNumber alpha;
     VString caps; VString joints; VNumber limit].
Proof.
  intros Hw. unfold lineStyle.
  destruct (Rleb_spec w 0); [lra | reflexivity].
Qed.

Lemma lineStyle_nonpositive (g : Graphics) w color alpha caps joints limit :
  w <= 0 -> lineStyle g w color alpha caps joints limit = g.
Proof.
  intros Hw. unfold lineStyle.
  destruct (Rleb_spec w 0); [reflexivity | lra].
Qed.

(** ** The pass, command by command *)

Lemma boundsPass_app (q1 q2 : list GraphicsCommand) :
  boundsPass (q1 ++ q2) = fold_left boundsStep q2 (boundsPass q1).
Proof. unfold boundsPass. apply fold_left_app. Qed.

Lemma boundsStep_inert (st : PassState) (cmd : GraphicsCommand) :
  inert cmd = true -> boundsStep st cmd = st.
Proof.
  destruct st as [running path]. unfold inert, boundsStep.
  destruct (type cmd); intros H; try discriminate H; reflexivity.
Qed.

(** After a LINE_STYLE command the multiplier is 1 when the joint is miter,
    and what it was before the command otherwise. *)
Lemma stepLineStyle_lineMult (path : GraphicsPath) (cmd : GraphicsCommand) :
  lineMult (stepLineStyle path cmd) =
  if String.eqb (getString cmd 4) JointStyle.MITER then 1
  else lineMult path.
Proof. reflexivity. Qed.

(** ** Scenarios *)

(** C1, evaluated on the code: after
    [lineStyle(4, 0, 1, ROUND, MITER); moveTo(0, 0); lineTo(10, 0); stroke()]
    on a fresh surface the queue holds BOUNDS(10, 0, 10, 0), so the pass
    finds the raw point box {x:10, y:0, width:0, height:0}, the effective
    width 4, and the final rectangle {x:6, y:-4, width:8, height:8}: neither
    the raw box {x:0, y:0, width:10, height:0} nor the final rectangle
    {x:-4, y:-4, width:18, height:8} of the scenario. *)
Theorem C1_scenarioB_bounds_on_code :
  let st := boundsPass (mCommandQueue scenarioB) in
  points (snd st) = [10; 0; 10; 0]
  /\ fromPointsXY (points (snd st)) = mkRectangle 10 0 0 0
  /\ fromPointsXY (points (snd st)) <> mkRectangle 0 0 10 0
  /\ maxLineWidth (snd st) = 4
  /\ onGetLocalBounds scenarioB = mkRectangle 6 (-4) 8 8
  /\ onGetLocalBounds scenarioB <> mkRectangle (-4) (-4) 18 8.
Proof.
  unfold scenarioB. rewrite lineStyle_positive by lra.
  assert (Hraw : fromPointsXY [10; 0; 10; 0] = mkRectangle 10 0 0 0).
  { unfold fromPointsXY, sweep. decide_R; f_equal; lra. }
  assert (Hw : maxLineWidth
                 (snd (boundsPass (mCommandQueue
                   (stroke (lineTo (moveTo (pushCommand newGraphics LINE_STYLE
                      [VNumber 4; VNumber 0; VNumber 1;
                       VString CapsStyle.ROUND; VString JointStyle.MITER;
                       VNumber 3]) 0 0) 10 0))))) = 4).
  { cbn. decide_R. }
  assert (Hfinal : onGetLocalBounds
                   (stroke (lineTo (moveTo (pushCommand newGraphics LINE_STYLE
                      [VNumber 4; VNumber 0; VNumber 1;
                       VString CapsStyle.ROUND; VString JointStyle.MITER;
                       VNumber 3]) 0 0) 10 0)) = mkRectangle 6 (-4) 8 8).
  { unfold onGetLocalBounds, boundsPass, finishPass. cbn.
    unfold union, isEmpty, inflate. cbn. decide_R; cbn; f_equal; lra. }
  cbv zeta. repeat split.
  - exact Hraw.
  - cbn [mCommandQueue]. change (points _) with [10; 0; 10; 0].
    rewrite Hraw. intros H. injection H as H. lra.
  - exact Hw.
  - exact Hfinal.
  - rewrite Hfinal. intros H. injection H as H. lra.
Qed.

(** On the queue that holds BOUNDS(0, 0, 10, 0) the pass does find the
    rectangle of the scenario: the difference lies in [lineTo] alone. *)
Lemma scenarioB_described_bounds :
  finishPass (boundsPass scenarioB_described) = mkRectangle (-4) (-4) 18 8.
Proof.
  unfold boundsPass, finishPass, scenarioB_described. cbn.
  unfold union, isEmpty, inflate. cbn. decide_R; cbn; f_equal; lra.
Qed.

(** C2, evaluated on the code: on a fresh surface (cursor at the origin),
    [lineTo(10, 0)] appends BOUNDS(10, 0, 10, 0); the command that carries
    the previous cursor, BOUNDS(0, 0, 10, 0), is not in the queue. *)
Theorem C2_lineTo_bounds_ignore_previous_cursor :
  mCommandQueue (lineTo newGraphics 10 0) =
    [mkCommand LINE_TO [VNumber 10; VNumber 0];
     mkCommand BOUNDS [VNumber 10; VNumber 0; VNumber 10; VNumber 0]]
  /\ ~ In (mkCommand BOUNDS
             [VNumber (mPosX newGraphics); VNumber (mPosY newGraphics);
              VNumber 10; VNumber 0])
          (mCommandQueue (lineTo newGraphics 10 0)).
Proof.
  split.
  - rewrite lineTo_queue. reflexivity.
  - rewrite lineTo_queue. simpl.
    intros [H | [H | []]].
    + discriminate H.
    + injection H as H. lra.
Qed.

(** C5, evaluated on the code: in one path, a LINE_STYLE with a miter joint
    followed by a LINE_STYLE with a round joint leaves the multiplier of
    the accumulator at 1, not at 0.5: the pass only ever raises it. *)
Theorem C5_round_after_miter_keeps_multiplier :
  mCommandQueue miterThenRound =
    [mkCommand LINE_STYLE
       [VNumber 4; VNumber 0; VNumber 1; VString CapsStyle.ROUND;
        VString JointStyle.MITER; VNumber 3];
     mkCommand LINE_STYLE
       [VNumber 4; VNumber 0; VNumber 1; VString CapsStyle.ROUND;
        VString JointStyle.ROUND; VNumber 3]]
  /\ lineMult (snd (boundsPass (mCommandQueue miterThenRound))) = 1
  /\ lineMult (snd (boundsPass (mCommandQueue miterThenRound))) <> 0.5.
Proof.
  unfold miterThenRound. rewrite !lineStyle_positive by lra.
  cbn. repeat split; try reflexivity. lra.
Qed.

(** ** Arcs *)

Lemma PI2_pos : 0 < MathEx.PI2.
Proof. unfold MathEx.PI2. pose proof PI_RGT_0. lra. Qed.

(** The loop [while (end < start) end += MathEx.PI2] is left with
    [end >= start], after whole turns only. *)
Lemma extendEnd_reaches (start end_ : R) :
  ~ extendEnd start end_ < start.
Proof.
  funelim (extendEnd start end_); assumption.
Qed.

Lemma extendEnd_done (start end_ : R) :
  ~ end_ < start -> extendEnd start end_ = end_.
Proof.
  intros H. funelim (extendEnd start end_); [contradiction | reflexivity].
Qed.

(** The remainder of zero is zero. *)
Lemma Rrem_0 (b : R) : Rrem 0 b = 0.
Proof.
  unfold Rrem, Rtrunc. replace (0 / b) with 0 by (unfold Rdiv; ring).
  destruct (Rleb_spec 0 0) as [_ | H]; [| lra].
  rewrite <- (Int_part_spec 0 0) by (simpl; lra). simpl. ring.
Qed.

(** The quarter of the unit circle from angle 0 to angle π/2, clockwise:
    the sweep covers the cardinal directions 0 and π/2, and the box runs
    from the center to (1, 1). *)
Example partialArcPoints_quarter :
  partialArcPoints 0 0 1 0 (PI * 0.5) false = [0; 0; 1; 1].
Proof.
  pose proof PI_RGT_0 as Hpi.
  unfold partialArcPoints. rewrite Rrem_0.
  destruct (Rltb_spec 0 0) as [H | _]; [lra |].
  replace (0 + 0) with 0 by ring.
  rewrite extendEnd_done by lra.
  replace (PI * 0.5) with (PI / 2) by lra.
  rewrite cos_0, sin_0, cos_PI2, sin_PI2.
  unfold MathEx.PI2. decide_R; simpl; decide_R; repeat f_equal; lra.
Qed.

(** [arc] never assigns the cursor. *)
Lemma arc_pos (g : Graphics) x y radius startAngle endAngle anticlockwise :
  mPosX (arc g x y radius startAngle endAngle anticlockwise) = mPosX g
  /\ mPosY (arc g x y radius startAngle endAngle anticlockwise) = mPosY g.
Proof.
  unfold arc. destruct (Reqb startAngle endAngle); [split; reflexivity |].
  cbv zeta.
  destruct (needsMoveTo _); split; reflexivity.
Qed.

Lemma arc_clip (g : Graphics) x y radius startAngle endAngle anticlockwise :
  mClipRect (arc g x y radius startAngle endAngle anticlockwise)
  = mClipRect g.
Proof.
  unfold arc. destruct (Reqb startAngle endAngle); [reflexivity |].
  cbv zeta. destruct (needsMoveTo _); reflexivity.
Qed.

(** Equal angles: the early [return]. *)
Lemma arc_equal_angles (g : Graphics) x y radius angle anticlockwise :
  arc g x y radius angle angle anticlockwise = g.
Proof.
  unfold arc. destruct (Reqb_spec angle angle) as [_ | H];
    [reflexivity | contradiction H; reflexivity].
Qed.

Lemma arc_queue (g : Graphics) x y radius startAngle endAngle anticlockwise :
  startAngle <> endAngle ->
  mCommandQueue (arc g x y radius startAngle endAngle anticlockwise) =
  mCommandQueue g
  ++ arcCommands x y radius startAngle endAngle anticlockwise.
Proof.
  intros Hne. unfold arc, arcCommands.
  destruct (Reqb_spec startAngle endAngle) as [Heq | _]; [contradiction |].
  cbv zeta. destruct (needsMoveTo _); simpl.
  - rewrite <- !app_assoc. reflexivity.
  - rewrite <- !app_assoc. reflexivity.
Qed.

(** The plan of a full turn. *)
Lemma arcPlan_full_turn x y radius startAngle endAngle anticlockwise :
  Rabs (startAngle - endAngle) >= MathEx.PI2 ->
  arcPlan x y radius startAngle endAngle anticlockwise =
  mkArcPlan true
    (vx (Circle.getCircumferencePoint x y radius (endAngle + PI * 0.5)))
    (vy (Circle.getCircumferencePoint x y radius (endAngle + PI * 0.5)))
    [x - radius; y - radius; x + radius; y + radius]
    (startAngle + MathEx.PI2).
Proof.
  intros Hfull. unfold arcPlan, Rgeb.
  destruct (Rleb_spec MathEx.PI2 (Rabs (startAngle - endAngle)));
    [reflexivity | lra].
Qed.

Lemma full_turn_angles_differ (startAngle endAngle : R) :
  Rabs (startAngle - endAngle) >= MathEx.PI2 -> startAngle <> endAngle.
Proof.
  intros Hfull Heq. subst endAngle.
  replace (startAngle - startAngle) with 0 in Hfull by lra.
  rewrite Rabs_R0 in Hfull. pose proof PI2_pos. lra.
Qed.

(** C4: for every center, radius, direction and angles with
    |startAngle − endAngle| ≥ 2π, [arc] appends the same BOUNDS command as
    [circle] at that center and radius, the square (x−r, y−r) to
    (x+r, y+r); as the other commands the two calls append are not looked
    at by the pass, the bounds after the two calls are the same, whatever
    is drawn next. *)
Theorem C4_full_turn_arc_bounds_as_circle
    (g : Graphics) (x y radius startAngle endAngle : R)
    (anticlockwise : bool) :
  Rabs (startAngle - endAngle) >= MathEx.PI2 ->
  (exists arcCmd moveCmd,
      type arcCmd = ARC /\ type moveCmd = MOVE_TO
      /\ mCommandQueue (arc g x y radius startAngle endAngle anticlockwise)
         = mCommandQueue g ++ [arcCmd; squareBounds x y radius; moveCmd])
  /\ (exists arcCmd,
      type arcCmd = ARC
      /\ mCommandQueue (circle g x y radius)
         = mCommandQueue g ++ [arcCmd; squareBounds x y radius])
  /\ (forall rest : list GraphicsCommand,
      boundsPass
        (mCommandQueue (arc g x y radius startAngle endAngle anticlockwise)
         ++ rest)
      = boundsPass (mCommandQueue (circle g x y radius) ++ rest))
  /\ onGetLocalBounds
       (fill (arc g x y radius startAngle endAngle anticlockwise))
     = onGetLocalBounds (fill (circle g x y radius)).
Proof.
  intros Hfull.
  pose proof (full_turn_angles_differ _ _ Hfull) as Hne.
  assert (Harc :
    mCommandQueue (arc g x y radius startAngle endAngle anticlockwise) =
    mCommandQueue g ++
      [mkCommand ARC
         [VNumber x; VNumber y; VNumber radius; VNumber startAngle;
          VNumber (startAngle + MathEx.PI2); VBoolean anticlockwise];
       squareBounds x y radius;
       mkCommand MOVE_TO
         [VNumber (vx (Circle.getCircumferencePoint x y radius
                         (endAngle + PI * 0.5)));
          VNumber (vy (Circle.getCircumferencePoint x y radius
                         (endAngle + PI * 0.5)))]]).
  { rewrite arc_queue by exact Hne. unfold arcCommands.
    rewrite arcPlan_full_turn by exact Hfull. reflexivity. }
  assert (Hcircle :
    mCommandQueue (circle g x y radius) =
    mCommandQueue g ++
      [mkCommand ARC
         [VNumber x; VNumber y; VNumber radius; VNumber 0;
          VNumber MathEx.PI2];
       squareBounds x y radius]).
  { unfold circle. rewrite !pushCommand_queue, <- app_assoc. reflexivity. }
  assert (Hpass : forall rest : list GraphicsCommand,
      boundsPass
        (mCommandQueue (arc g x y radius startAngle endAngle anticlockwise)
         ++ rest)
      = boundsPass (mCommandQueue (circle g x y radius) ++ rest)).
  { intros rest. rewrite Harc, Hcircle.
    rewrite <- !app_assoc, !boundsPass_app.
    destruct (boundsPass (mCommandQueue g)) as [running path].
    reflexivity. }
  split; [| split; [| split]].
  - eexists _, _. split; [| split; [| exact Harc]]; reflexivity.
  - eexists. split; [| exact Hcircle]. reflexivity.
  - exact Hpass.
  - unfold onGetLocalBounds, fill.
    rewrite !pushCommand_clip, arc_clip.
    assert (Hclip : mClipRect (circle g x y radius) = mClipRect g)
      by reflexivity.
    rewrite Hclip. destruct (mClipRect g); [reflexivity |].
    rewrite !pushCommand_queue, Hpass. reflexivity.
Qed.

(** A full turn from angle 0 on a fresh surface, clockwise. *)
Lemma C4_full_turn_arc_bounds_as_circle_witness :
  Rabs (0 - MathEx.PI2) >= MathEx.PI2
  /\ onGetLocalBounds (fill (arc newGraphics 0 0 1 0 MathEx.PI2 false))
     = onGetLocalBounds (fill (circle newGraphics 0 0 1)).
Proof.
  assert (H : Rabs (0 - MathEx.PI2) >= MathEx.PI2).
  { rewrite Rabs_left by (pose proof PI2_pos; lra). lra. }
  split; [exact H |].
  exact (proj2 (proj2 (proj2
    (C4_full_turn_arc_bounds_as_circle newGraphics 0 0 1 0 MathEx.PI2
       false H)))).
Defined.

(** C6 as stated fails: on a fresh surface the arc of radius zero from
    angle 0 to angle 1 appends commands. *)
Lemma C6_zero_radius_arc_is_recorded :
  ~ arcIsNoOp newGraphics 0 0 0 0 1 false.
Proof.
  unfold arcIsNoOp. cbv zeta. intros [Hq _].
  rewrite arc_queue in Hq by lra.
  unfold arcCommands in Hq. simpl in Hq. discriminate Hq.
Qed.

(** C6, amended: for every center, radius, angle and direction, an arc
    call whose startAngle equals its endAngle is a no-op: it appends no
    commands and leaves the cursor unchanged (the surface is the one it
    was). *)
Theorem C6_equal_angles_arc_is_noop
    (g : Graphics) (x y radius startAngle endAngle : R)
    (anticlockwise : bool) :
  startAngle = endAngle ->
  arc g x y radius startAngle endAngle anticlockwise = g
  /\ arcIsNoOp g x y radius startAngle endAngle anticlockwise.
Proof.
  intros Heq. subst endAngle. unfold arcIsNoOp. cbv zeta.
  rewrite arc_equal_angles. repeat split.
Qed.

(** Equal angles with a radius of zero on a fresh surface. *)
Lemma C6_equal_angles_arc_is_noop_witness :
  1 = 1 /\ arc newGraphics 0 0 0 1 1 true = newGraphics.
Proof.
  split; [reflexivity |].
  exact (proj1 (C6_equal_angles_arc_is_noop newGraphics 0 0 0 1 1 true
                  eq_refl)).
Defined.




(** ** Cubic curves *)

Lemma bezierCurveTo_queue (g : Graphics) cp1x cp1y cp2x cp2y x y :
  mCommandQueue (bezierCurveTo g cp1x cp1y cp2x cp2y x y) =
  mCommandQueue g ++
    [mkCommand BEZIER_CURVE_TO
       [VNumber cp1x; VNumber cp1y; VNumber cp2x; VNumber cp2y;
        VNumber x; VNumber y];
     mkCommand BOUNDS
       [VNumber (vx (bezierRange (mPosX g) cp1x cp2x x));
        VNumber (vx (bezierRange (mPosY g) cp1y cp2y y));
        VNumber (vy (bezierRange (mPosX g) cp1x cp2x x));
        VNumber (vy (bezierRange (mPosY g) cp1y cp2y y))]].
Proof.
  unfold bezierCurveTo. cbv zeta.
  rewrite !pushCommand_queue, <- app_assoc. reflexivity.
Qed.

(** C10: every call to [arc] leaves the cursor where it was, also after a
    full turn, where a MOVE_TO command is appended to the queue without
    the cursor being assigned; a [bezierCurveTo] that follows takes its
    ranges from the cursor that preceded the [arc] call. *)
Theorem C10_arc_keeps_cursor
    (g : Graphics) (x y radius startAngle endAngle : R)
    (anticlockwise : bool) (cp1x cp1y cp2x cp2y tx ty : R) :
  let g' := arc g x y radius startAngle endAngle anticlockwise in
  mPosX g' = mPosX g /\ mPosY g' = mPosY g
  /\ (Rabs (startAngle - endAngle) >= MathEx.PI2 ->
      exists arcCmd boundsCmd moveToX moveToY,
        mCommandQueue g' =
        mCommandQueue g ++
          [arcCmd; boundsCmd;
           mkCommand MOVE_TO [VNumber moveToX; VNumber moveToY]])
  /\ mCommandQueue (bezierCurveTo g' cp1x cp1y cp2x cp2y tx ty) =
     mCommandQueue g' ++
       [mkCommand BEZIER_CURVE_TO
          [VNumber cp1x; VNumber cp1y; VNumber cp2x; VNumber cp2y;
           VNumber tx; VNumber ty];
        mkCommand BOUNDS
          [VNumber (vx (bezierRange (mPosX g) cp1x cp2x tx));
           VNumber (vx (bezierRange (mPosY g) cp1y cp2y ty));
           VNumber (vy (bezierRange (mPosX g) cp1x cp2x tx));
           VNumber (vy (bezierRange (mPosY g) cp1y cp2y ty))]].
Proof.
  cbv zeta.
  destruct (arc_pos g x y radius startAngle endAngle anticlockwise)
    as [Hx Hy].
  split; [exact Hx | split; [exact Hy | split]].
  - intros Hfull.
    rewrite arc_queue by (apply full_turn_angles_differ; exact Hfull).
    unfold arcCommands. rewrite arcPlan_full_turn by exact Hfull.
    eexists _, _, _, _. reflexivity.
  - rewrite bezierCurveTo_queue, Hx, Hy. reflexivity.
Qed.

(** A full turn around (5, 5) on a fresh surface: the MOVE_TO command is
    in the queue and the cursor is still at the origin. *)
Lemma C10_arc_keeps_cursor_witness :
  Rabs (0 - MathEx.PI2) >= MathEx.PI2
  /\ mPosX (arc newGraphics 5 5 1 0 MathEx.PI2 false) = 0
  /\ mPosY (arc newGraphics 5 5 1 0 MathEx.PI2 false) = 0
  /\ exists arcCmd boundsCmd moveToX moveToY,
       mCommandQueue (arc newGraphics 5 5 1 0 MathEx.PI2 false) =
       [arcCmd; boundsCmd;
        mkCommand MOVE_TO [VNumber moveToX; VNumber moveToY]].
Proof.
  assert (H : Rabs (0 - MathEx.PI2) >= MathEx.PI2).
  { rewrite Rabs_left by (pose proof PI2_pos; lra). lra. }
  destruct (C10_arc_keeps_cursor newGraphics 5 5 1 0 MathEx.PI2 false
              0 0 0 0 0 0) as (Hx & Hy & Hmove & _).
  split; [exact H | split; [exact Hx | split; [exact Hy |]]].
  exact (Hmove H).
Defined.

(** ** Shape scripts *)


Lemma rect_queue (g : Graphics) x y w h :
  mCommandQueue (rect g x y w h) =
  mCommandQueue g ++
    [mkCommand RECT [VNumber x; VNumber y; VNumber w; VNumber h];
     mkCommand BOUNDS
       [VNumber x; VNumber y; VNumber (x + w); VNumber (y + h)]].
Proof.
  unfold rect. rewrite !pushCommand_queue, <- app_assoc. reflexivity.
Qed.

Lemma circle_queue (g : Graphics) x y r :
  mCommandQueue (circle g x y r) =
  mCommandQueue g ++
    [mkCommand ARC
       [VNumber x; VNumber y; VNumber r; VNumber 0; VNumber MathEx.PI2];
     mkCommand BOUNDS
       [VNumber (x - r); VNumber (y - r); VNumber (x + r); VNumber (y + r)]].
Proof.
  unfold circle. rewrite !pushCommand_queue, <- app_assoc. reflexivity.
Qed.





(** [split] always yields a piece. *)
Lemma split_not_nil (s : string) : split s <> [].
Proof.
  destruct s as [| c rest]; simpl; [discriminate |].
  destruct (Ascii.eqb c " "); [discriminate |].
  destruct (split rest); discriminate.
Qed.

(** The token stream of a rectangle, of the empty text, and the number
    text of a command token. *)
Example split_rect :
  split "$r0 0 10 20" = ["$r0"; "0"; "10"; "20"]%string.
Proof. reflexivity. Qed.

Example split_empty : split "" = [""%string].
Proof. reflexivity. Qed.

Example substringFrom_code : substringFrom 2 "$r10" = "10"%string.
Proof. reflexivity. Qed.



(** * Further properties *)

(** ** The range of a cubic curve *)






(** ** The pass over arbitrary queues *)

Lemma fold_boundsStep_filter (q : list GraphicsCommand) :
  forall st : PassState,
    fold_left boundsStep (filter (fun cmd => negb (inert cmd)) q) st
    = fold_left boundsStep q st.
Proof.
  induction q as [| cmd q IH]; intros st; [reflexivity |].
  simpl. destruct (inert cmd) eqn:E; simpl.
  - rewrite (boundsStep_inert st cmd E). apply IH.
  - apply IH.
Qed.

(** [onGetLocalBounds] depends on the BEGIN_PATH, BOUNDS, LINE_STYLE, FILL
    and STROKE commands of the queue only: taking every other command
    (CLOSE_PATH, MOVE_TO, LINE_TO, ARC, RECT, BEZIER_CURVE_TO, FILL_STYLE)
    out of the queue of a surface leaves its local bounds as they are. *)
Theorem pass_ignores_inert_commands (g : Graphics) :
  onGetLocalBounds
    (mkGraphics (mBounds g)
       (filter (fun cmd => negb (inert cmd)) (mCommandQueue g))
       (mPosX g) (mPosY g) (mPadding g) (mClipRect g))
  = onGetLocalBounds g.
Proof.
  unfold onGetLocalBounds, boundsPass. simpl.
  destruct (mClipRect g); [reflexivity |].
  rewrite fold_boundsStep_filter. reflexivity.
Qed.

Lemma no_commit_pass (q : list GraphicsCommand) :
  Forall (fun cmd => isCommit cmd = false) q ->
  forall st : PassState,
    fst st = newRectangle -> bounds (snd st) = None ->
    finishPass (fold_left boundsStep q st) = newRectangle.
Proof.
  induction 1 as [| cmd q Hcmd Hq IH]; intros [running path] Hr Hb;
    simpl in Hr, Hb.
  - unfold finishPass, unionPath. simpl. rewrite Hb. exact Hr.
  - simpl. unfold isCommit in Hcmd.
    destruct (type cmd); try discriminate Hcmd; apply IH; simpl;
      try assumption; try reflexivity.
    unfold unionPath. rewrite Hb. exact Hr.
Qed.

(** Without a clip rectangle, the local bounds are the zero rectangle at
    the origin as long as the queue holds no FILL and no STROKE command:
    geometry counts only once it is filled or stroked. *)
Theorem bounds_need_commit (g : Graphics) :
  mClipRect g = None ->
  Forall (fun cmd => isCommit cmd = false) (mCommandQueue g) ->
  onGetLocalBounds g = newRectangle.
Proof.
  intros Hclip H. unfold onGetLocalBounds, boundsPass. rewrite Hclip.
  apply no_commit_pass; [exact H | reflexivity | reflexivity].
Qed.

(** A rectangle and a circle drawn on a fresh surface, never filled nor
    stroked. *)
Lemma bounds_need_commit_witness :
  mClipRect (circle (rect newGraphics 0 0 10 20) 5 5 30) = None
  /\ Forall (fun cmd => isCommit cmd = false)
       (mCommandQueue (circle (rect newGraphics 0 0 10 20) 5 5 30))
  /\ onGetLocalBounds (circle (rect newGraphics 0 0 10 20) 5 5 30)
     = newRectangle.
Proof.
  assert (Hc : mClipRect (circle (rect newGraphics 0 0 10 20) 5 5 30)
               = None) by reflexivity.
  assert (Hq : Forall (fun cmd => isCommit cmd = false)
                 (mCommandQueue (circle (rect newGraphics 0 0 10 20) 5 5 30)))
    by (repeat constructor).
  split; [exact Hc | split; [exact Hq |]].
  exact (bounds_need_commit _ Hc Hq).
Defined.

Lemma path_independent_of_running (q : list GraphicsCommand) :
  forall (r1 r2 : Rectangle) (path : GraphicsPath),
    snd (fold_left boundsStep q (r1, path))
    = snd (fold_left boundsStep q (r2, path)).
Proof.
  induction q as [| cmd q IH]; intros r1 r2 path; [reflexivity |].
  simpl. destruct (type cmd); apply IH.
Qed.

(** A BEGIN_PATH command makes the pass forget the accumulator: the
    points, the line width, the multiplier and the committed bounds of the
    path after a BEGIN_PATH are those of the commands that follow it,
    whatever came before.  A line style set before [beginPath()] does not
    reach the strokes of the new path. *)
Theorem beginPath_forgets_accumulator
    (history q : list GraphicsCommand) (d : list value) :
  snd (boundsPass (history ++ mkCommand BEGIN_PATH d :: q))
  = snd (boundsPass q).
Proof.
  rewrite boundsPass_app. simpl.
  destruct (boundsPass history) as [running path]. simpl.
  unfold boundsPass. apply path_independent_of_running.
Qed.

(** ** Styles, strokes and clearing *)




(** Whatever was drawn, [clear()] leaves a queue of one BEGIN_PATH command,
    the cursor at the origin and [mBounds] zeroed; clearing twice is
    clearing once; and without a clip rectangle the local bounds of the
    cleared surface are the zero rectangle at the origin. *)
Theorem clear_resets (g : Graphics) :
  mCommandQueue (clear g) = [mkCommand BEGIN_PATH []]
  /\ mPosX (clear g) = 0 /\ mPosY (clear g) = 0
  /\ mBounds (clear g) = newRectangle
  /\ clear (clear g) = clear g
  /\ (mClipRect g = None -> onGetLocalBounds (clear g) = newRectangle).
Proof.
  repeat split.
  intros Hclip. unfold onGetLocalBounds. simpl. rewrite Hclip. reflexivity.
Qed.

(** Clearing the surface of scenario B. *)
Lemma clear_resets_witness :
  mClipRect scenarioB = None
  /\ mCommandQueue (clear scenarioB) = [mkCommand BEGIN_PATH []]
  /\ onGetLocalBounds (clear scenarioB) = newRectangle.
Proof.
  assert (Hc : mClipRect scenarioB = None).
  { unfold scenarioB. rewrite lineStyle_positive by lra. reflexivity. }
  destruct (clear_resets scenarioB) as (Hq & _ & _ & _ & _ & Hb).
  split; [exact Hc | split; [exact Hq | exact (Hb Hc)]].
Defined.

(** ** The box of an arc *)

Lemma cos_period_Z (a : R) (z : Z) : cos (a + 2 * IZR z * PI) = cos a.
Proof.
  destruct (Z_le_gt_dec 0 z) as [Hz | Hz].
  - rewrite <- (Z2Nat.id z Hz), <- INR_IZR_INZ. apply cos_period.
  - rewrite <- (cos_period (a + 2 * IZR z * PI) (Z.to_nat (- z))).
    rewrite INR_IZR_INZ, Z2Nat.id by lia. rewrite opp_IZR.
    f_equal. ring.
Qed.

Lemma sin_period_Z (a : R) (z : Z) : sin (a + 2 * IZR z * PI) = sin a.
Proof.
  destruct (Z_le_gt_dec 0 z) as [Hz | Hz].
  - rewrite <- (Z2Nat.id z Hz), <- INR_IZR_INZ. apply sin_period.
  - rewrite <- (sin_period (a + 2 * IZR z * PI) (Z.to_nat (- z))).
    rewrite INR_IZR_INZ, Z2Nat.id by lia. rewrite opp_IZR.
    f_equal. ring.
Qed.

Lemma sameDirection_turns (a : R) (z : Z) :
  sameDirection (a + MathEx.PI2 * IZR z) a.
Proof.
  unfold sameDirection, MathEx.PI2.
  replace (a + PI * 2 * IZR z) with (a + 2 * IZR z * PI) by ring.
  split; [apply cos_period_Z | apply sin_period_Z].
Qed.

Lemma extendEnd_sameDirection (start end_ : R) :
  sameDirection (extendEnd start end_) end_.
Proof.
  funelim (extendEnd start end_).
  - match goal with
    | IH : sameDirection _ _ |- _ => destruct IH as [Hc Hs]
    end.
    destruct (sameDirection_turns end_ 1) as [Hc1 Hs1].
    rewrite Rmult_1_r in Hc1, Hs1.
    split; congruence.
  - split; reflexivity.
Qed.

Lemma normalized_sameDirection (startAngle : R) :
  sameDirection
    (Rrem startAngle MathEx.PI2
     + (if Rltb startAngle 0 then MathEx.PI2 else 0)) startAngle.
Proof.
  unfold Rrem.
  set (z := Rtrunc (startAngle / MathEx.PI2)).
  destruct (Rltb startAngle 0).
  - replace (startAngle - MathEx.PI2 * IZR z + MathEx.PI2)
      with (startAngle + MathEx.PI2 * IZR (1 - z))
      by (rewrite minus_IZR; ring).
    apply sameDirection_turns.
  - replace (startAngle - MathEx.PI2 * IZR z + 0)
      with (startAngle + MathEx.PI2 * IZR (- z))
      by (rewrite opp_IZR; ring).
    apply sameDirection_turns.
Qed.






(** The box of a partial arc of radius r ≥ 0, relative to the center: it
    lies inside the square of the circle and holds the two ends of the
    arc. *)
Lemma partialArcPoints_box (x y radius startAngle endAngle : R)
    (anticlockwise : bool) :
  0 <= radius ->
  exists minX minY maxX maxY : R,
    partialArcPoints x y radius startAngle endAngle anticlockwise
    = [minX + x; minY + y; maxX + x; maxY + y]
    /\ - radius <= minX <= maxX /\ maxX <= radius
    /\ - radius <= minY <= maxY /\ maxY <= radius
    /\ minX <= cos startAngle * radius <= maxX
    /\ minX <= cos endAngle * radius <= maxX
    /\ minY <= sin startAngle * radius <= maxY
    /\ minY <= sin endAngle * radius <= maxY.
Proof.
  intros Hr. unfold partialArcPoints.
  pose proof (normalized_sameDirection startAngle) as [Nc Ns].
  set (start0 := Rrem startAngle MathEx.PI2
                 + (if Rltb startAngle 0 then MathEx.PI2 else 0)) in *.
  assert (Hdir : forall s e : R,
    (cos s = cos startAngle /\ sin s = sin startAngle
     /\ cos e = cos endAngle /\ sin e = sin endAngle)
    \/ (cos s = cos endAngle /\ sin s = sin endAngle
        /\ cos e = cos startAngle /\ sin e = sin startAngle) ->
    forall right left bottom top : bool,
    exists minX minY maxX maxY : R,
      [(if left then - radius else Rmin (cos s * radius) (cos e * radius)) + x;
       (if top then - radius else Rmin (sin s * radius) (sin e * radius)) + y;
       (if right then radius else Rmax (cos s * radius) (cos e * radius)) + x;
       (if bottom then radius else Rmax (sin s * radius) (sin e * radius)) + y]
      = [minX + x; minY + y; maxX + x; maxY + y]
      /\ - radius <= minX <= maxX /\ maxX <= radius
      /\ - radius <= minY <= maxY /\ maxY <= radius
      /\ minX <= cos startAngle * radius <= maxX
      /\ minX <= cos endAngle * radius <= maxX
      /\ minY <= sin startAngle * radius <= maxY
      /\ minY <= sin endAngle * radius <= maxY).
  { intros s e Hse right left bottom top.
    eexists _, _, _, _. split; [reflexivity |].
    pose proof (COS_bound s) as [Cs1 Cs2]. pose proof (COS_bound e) as [Ce1 Ce2].
    pose proof (SIN_bound s) as [Ss1 Ss2]. pose proof (SIN_bound e) as [Se1 Se2].
    assert (Bcs : - radius <= cos s * radius <= radius) by nra.
    assert (Bce : - radius <= cos e * radius <= radius) by nra.
    assert (Bss : - radius <= sin s * radius <= radius) by nra.
    assert (Bse : - radius <= sin e * radius <= radius) by nra.
    pose proof (Rmin_l (cos s * radius) (cos e * radius)).
    pose proof (Rmin_r (cos s * radius) (cos e * radius)).
    pose proof (Rmax_l (cos s * radius) (cos e * radius)).
    pose proof (Rmax_r (cos s * radius) (cos e * radius)).
    pose proof (Rmin_l (sin s * radius) (sin e * radius)).
    pose proof (Rmin_r (sin s * radius) (sin e * radius)).
    pose proof (Rmax_l (sin s * radius) (sin e * radius)).
    pose proof (Rmax_r (sin s * radius) (sin e * radius)).
    assert (Mc : - radius <= Rmin (cos s * radius) (cos e * radius))
      by (apply Rmin_glb; lra).
    assert (Mc' : Rmax (cos s * radius) (cos e * radius) <= radius)
      by (apply Rmax_lub; lra).
    assert (Ms : - radius <= Rmin (sin s * radius) (sin e * radius))
      by (apply Rmin_glb; lra).
    assert (Ms' : Rmax (sin s * radius) (sin e * radius) <= radius)
      by (apply Rmax_lub; lra).
    destruct Hse as [(E1 & E2 & E3 & E4) | (E1 & E2 & E3 & E4)];
      rewrite <- ?E1, <- ?E2, <- ?E3, <- ?E4;
      destruct left, right, top, bottom; repeat split; lra. }
  destruct anticlockwise.
  - pose proof (extendEnd_sameDirection endAngle start0) as [Ec Es].
    apply Hdir. right. repeat split; congruence.
  - pose proof (extendEnd_sameDirection start0 endAngle) as [Ec Es].
    apply Hdir. left. repeat split; congruence.
Qed.

Lemma arc_bounds_box (g : Graphics) (x y radius startAngle endAngle : R)
    (anticlockwise : bool) :
  0 <= radius -> startAngle <> endAngle ->
  exists (x1 y1 x2 y2 : R) (arcCmd : GraphicsCommand)
         (last : list GraphicsCommand),
    mCommandQueue (arc g x y radius startAngle endAngle anticlockwise)
    = mCommandQueue g
      ++ arcCmd
         :: mkCommand BOUNDS [VNumber x1; VNumber y1; VNumber x2; VNumber y2]
         :: last
    /\ type arcCmd = ARC
    /\ (x - radius <= x1 <= x2 /\ x2 <= x + radius)
    /\ (y - radius <= y1 <= y2 /\ y2 <= y + radius)
    /\ x1 <= x + cos startAngle * radius <= x2
    /\ x1 <= x + cos endAngle * radius <= x2
    /\ y1 <= y + sin startAngle * radius <= y2
    /\ y1 <= y + sin endAngle * radius <= y2.
Proof.
  intros Hr Hne. rewrite arc_queue by exact Hne.
  unfold arcCommands, arcPlan.
  destruct (Rgeb (Rabs (startAngle - endAngle)) MathEx.PI2).
  - cbn.
    pose proof (COS_bound startAngle) as [? ?].
    pose proof (COS_bound endAngle) as [? ?].
    pose proof (SIN_bound startAngle) as [? ?].
    pose proof (SIN_bound endAngle) as [? ?].
    eexists _, _, _, _, _, _. split; [reflexivity |].
    split; [reflexivity |]. repeat split; nra.
  - cbn.
    destruct (partialArcPoints_box x y radius startAngle endAngle
                anticlockwise Hr)
      as (minX & minY & maxX & maxY & Hpts & HX & HX' & HY & HY'
          & Sx & Ex & Sy & Ey).
    rewrite Hpts. cbn.
    eexists _, _, _, _, _, _. split; [reflexivity |].
    split; [reflexivity |]. repeat split; lra.
Qed.

(** For every arc call with radius ≥ 0 and startAngle ≠ endAngle, in either
    direction and for a partial or a full turn, the BOUNDS command that
    [arc] records is a box (first corner not beyond the second) that lies
    inside the enclosing square (x−r, y−r) to (x+r, y+r) of the circle. *)
Theorem arc_box_inside_square
    (g : Graphics) (x y radius startAngle endAngle : R)
    (anticlockwise : bool) :
  0 <= radius -> startAngle <> endAngle ->
  exists (x1 y1 x2 y2 : R) (arcCmd : GraphicsCommand)
         (last : list GraphicsCommand),
    mCommandQueue (arc g x y radius startAngle endAngle anticlockwise)
    = mCommandQueue g
      ++ arcCmd
         :: mkCommand BOUNDS [VNumber x1; VNumber y1; VNumber x2; VNumber y2]
         :: last
    /\ (x - radius <= x1 <= x2 /\ x2 <= x + radius)
    /\ (y - radius <= y1 <= y2 /\ y2 <= y + radius).
Proof.
  intros Hr Hne.
  destruct (arc_bounds_box g x y radius startAngle endAngle anticlockwise
              Hr Hne)
    as (x1 & y1 & x2 & y2 & arcCmd & last & Hq & _ & HX & HY & _).
  exists x1, y1, x2, y2, arcCmd, last.
  split; [exact Hq | split; [exact HX | exact HY]].
Qed.

(** The arc of radius 2 around (5, 5) from angle 0 to angle 1. *)
Lemma arc_box_inside_square_witness :
  (0 <= 2 /\ 0 <> 1)
  /\ exists (x1 y1 x2 y2 : R) (arcCmd : GraphicsCommand)
            (last : list GraphicsCommand),
       mCommandQueue (arc newGraphics 5 5 2 0 1 false)
       = arcCmd
         :: mkCommand BOUNDS [VNumber x1; VNumber y1; VNumber x2; VNumber y2]
         :: last
       /\ (5 - 2 <= x1 <= x2 /\ x2 <= 5 + 2)
       /\ (5 - 2 <= y1 <= y2 /\ y2 <= 5 + 2).
Proof.
  assert (Hr : 0 <= 2) by lra. assert (Hne : 0 <> 1) by lra.
  split; [split; [exact Hr | exact Hne] |].
  exact (arc_box_inside_square newGraphics 5 5 2 0 1 false Hr Hne).
Defined.



(** ** Runs of calls *)

Lemma partialArcPoints_four (x y r s e : R) (acw : bool) :
  exists x1 y1 x2 y2 : R, partialArcPoints x y r s e acw = [x1; y1; x2; y2].
Proof.
  unfold partialArcPoints. destruct acw; eexists _, _, _, _; reflexivity.
Qed.

(** Every method but [clear] only appends to the queue, and what it
    appends is well formed. *)
Lemma perform_appends (g : Graphics) (call : Call) :
  isClear call = false ->
  exists appended : list GraphicsCommand,
    mCommandQueue (perform g call) = mCommandQueue g ++ appended
    /\ Forall wellFormed appended.
Proof.
  intros Hc.
  destruct call as [w c a caps joints limit | c a | | px py | px py
                   | px py r s e acw | px py r | px py w h
                   | c1x c1y c2x c2y px py | | | | ];
    try discriminate Hc; cbn [perform].
  - destruct (Rle_dec w 0) as [Hle | Hgt].
    + rewrite lineStyle_nonpositive by exact Hle.
      exists []. rewrite app_nil_r. split; [reflexivity | constructor].
    + rewrite lineStyle_positive by lra.
      eexists. split; [reflexivity |]. repeat constructor.
      unfold wellFormed. simpl. eexists _, _, _, _, _, _.
      split; [reflexivity | lra].
  - eexists. split; [reflexivity |]. repeat constructor.
  - eexists. split; [reflexivity |]. repeat constructor.
  - rewrite lineTo_queue. eexists. split; [reflexivity |].
    repeat constructor. unfold wellFormed. simpl.
    eexists _, _, _, _. reflexivity.
  - destruct (Req_dec_T s e) as [Heq | Hne].
    + subst. rewrite arc_equal_angles.
      exists []. rewrite app_nil_r. split; [reflexivity | constructor].
    + rewrite arc_queue by exact Hne. eexists. split; [reflexivity |].
      unfold arcCommands, arcPlan.
      destruct (Rgeb _ MathEx.PI2); simpl.
      * repeat constructor. unfold wellFormed. simpl.
        eexists _, _, _, _. reflexivity.
      * destruct (partialArcPoints_four px py r s e acw)
          as (x1 & y1 & x2 & y2 & Hp).
        rewrite Hp. repeat constructor. unfold wellFormed. simpl.
        eexists _, _, _, _. reflexivity.
  - rewrite circle_queue. eexists. split; [reflexivity |].
    repeat constructor. unfold wellFormed. simpl.
    eexists _, _, _, _. reflexivity.
  - rewrite rect_queue. eexists. split; [reflexivity |].
    repeat constructor. unfold wellFormed. simpl.
    eexists _, _, _, _. reflexivity.
  - rewrite bezierCurveTo_queue. eexists. split; [reflexivity |].
    repeat constructor. unfold wellFormed. simpl.
    eexists _, _, _, _. reflexivity.
  - eexists. split; [reflexivity |]. repeat constructor.
  - eexists. split; [reflexivity |]. repeat constructor.
  - eexists. split; [reflexivity |]. repeat constructor.
  - eexists. split; [reflexivity |]. repeat constructor.
Qed.

(** The queue is append-only: a run of calls of the drawing methods, with
    no [clear()] among them, leaves the queue it found as a prefix of the
    queue it ends with. *)
Theorem queue_is_append_only (calls : list Call) :
  Forall (fun call => isClear call = false) calls ->
  forall g : Graphics,
    exists appended : list GraphicsCommand,
      mCommandQueue (performAll g calls) = mCommandQueue g ++ appended.
Proof.
  induction 1 as [| call calls Hcall Hcalls IH]; intros g.
  - exists []. rewrite app_nil_r. reflexivity.
  - simpl. destruct (perform_appends g call Hcall) as (a1 & Hq1 & _).
    destruct (IH (perform g call)) as (a2 & Hq2).
    exists (a1 ++ a2).
    unfold performAll in *. rewrite Hq2, Hq1, <- app_assoc. reflexivity.
Qed.

(** An arc and a fill after scenario B. *)
Lemma queue_is_append_only_witness :
  Forall (fun call => isClear call = false)
    [CallArc 0 0 1 0 1 false; CallFill]
  /\ exists appended : list GraphicsCommand,
       mCommandQueue
         (performAll scenarioB [CallArc 0 0 1 0 1 false; CallFill])
       = mCommandQueue scenarioB ++ appended.
Proof.
  assert (H : Forall (fun call => isClear call = false)
                [CallArc 0 0 1 0 1 false; CallFill])
    by (repeat constructor).
  split; [exact H | exact (queue_is_append_only _ H scenarioB)].
Defined.



(** ** Command codes *)

(** A token that starts with a two-character command code starts with
    [$], and with no other code. *)
Lemma code_prefixes (k : ascii) (c : string) :
  String.prefix (String "$" (String k EmptyString)) c = true ->
  String.prefix "$" c = true
  /\ forall k' : ascii,
       k' <> k ->
       String.prefix (String "$" (String k' EmptyString)) c = false.
Proof.
  intros H. destruct c as [| ch1 c']; cbn [String.prefix] in H;
    [discriminate H |].
  destruct (ascii_dec "$" ch1) as [E1 | N1]; [| discriminate H].
  destruct c' as [| ch2 rest]; cbn [String.prefix] in H; [discriminate H |].
  destruct (ascii_dec k ch2) as [E2 | N2]; [| discriminate H].
  subst. split.
  - cbn [String.prefix].
    destruct (ascii_dec "$" "$"); [reflexivity | contradiction].
  - intros k' Hk. cbn [String.prefix].
    destruct (ascii_dec "$" "$"); [| reflexivity].
    destruct (ascii_dec k' ch2); [contradiction | reflexivity].
Qed.

(** * Properties over binary64 *)

Section Binary64Properties.
Import PrimFloat SpecFloat FloatAxioms.
Import FloatOrder.
Import Binary64.
Local Open Scope float_scope.

(** ** The order of the numbers *)

Lemma SFcompare_key (a b : spec_float) :
  notNan a = true -> notNan b = true ->
  SFcompare a b = Some (lex (key a) (key b)).
Proof.
  destruct a as [sa | sa | | sa ma ea], b as [sb | sb | | sb mb eb];
    try discriminate; intros _ _;
    try destruct sa; try destruct sb; try reflexivity.
  cbn [SFcompare key lex]. rewrite Z.compare_opp, (Z.compare_antisym ea eb).
  change (Z.compare (-1) (-1)) with Eq.
  destruct (Z.compare ea eb); reflexivity.
Qed.



Lemma lex_antisym (a b : Z * Z * Z) : lex b a = CompOpp (lex a b).
Proof.
  destruct a as [[a1 a2] a3], b as [[b1 b2] b3]. unfold lex.
  rewrite (Z.compare_antisym a1 b1), (Z.compare_antisym a2 b2),
    (Z.compare_antisym a3 b3).
  destruct (Z.compare a1 b1), (Z.compare a2 b2), (Z.compare a3 b3);
    reflexivity.
Qed.

Lemma lex_refl (a : Z * Z * Z) : lex a a = Eq.
Proof.
  destruct a as [[a1 a2] a3]. unfold lex. rewrite !Z.compare_refl.
  reflexivity.
Qed.

Lemma is_nan_notNan (v : float) :
  is_nan v = negb (notNan (FloatOps.Prim2SF v)).
Proof.
  unfold is_nan. rewrite FloatAxioms.eqb_spec. unfold SFeqb.
  destruct (FloatOps.Prim2SF v) as [s | s | | s m e] eqn:E; try reflexivity.
  - simpl. destruct s; reflexivity.
  - rewrite SFcompare_key by reflexivity. rewrite lex_refl. reflexivity.
Qed.

Lemma number_notNan (v : float) :
  is_nan v = false -> notNan (FloatOps.Prim2SF v) = true.
Proof.
  rewrite is_nan_notNan. destruct (notNan _); [reflexivity | discriminate].
Qed.

Lemma leb_key (a b : float) :
  is_nan a = false -> is_nan b = false ->
  (a <=? b) =
  match lex (key (FloatOps.Prim2SF a)) (key (FloatOps.Prim2SF b)) with
  | Gt => false
  | _ => true
  end.
Proof.
  intros Ha Hb. rewrite FloatAxioms.leb_spec. unfold SFleb.
  rewrite SFcompare_key by (apply number_notNan; assumption).
  destruct (lex _ _); reflexivity.
Qed.

Lemma ltb_key (a b : float) :
  is_nan a = false -> is_nan b = false ->
  (a <? b) =
  match lex (key (FloatOps.Prim2SF a)) (key (FloatOps.Prim2SF b)) with
  | Lt => true
  | _ => false
  end.
Proof.
  intros Ha Hb. rewrite FloatAxioms.ltb_spec. unfold SFltb.
  rewrite SFcompare_key by (apply number_notNan; assumption).
  destruct (lex _ _); reflexivity.
Qed.

(** A comparison that holds compares two numbers. *)
Lemma ltb_number (a b : float) :
  (a <? b) = true -> is_nan a = false /\ is_nan b = false.
Proof.
  rewrite FloatAxioms.ltb_spec. unfold SFltb. rewrite !is_nan_notNan.
  destruct (FloatOps.Prim2SF a), (FloatOps.Prim2SF b); simpl;
    try discriminate; auto.
Qed.



Lemma ltb_irrefl (a : float) : (a <? a) = false.
Proof.
  destruct (is_nan a) eqn:Ha.
  - destruct (a <? a) eqn:E; [| reflexivity].
    destruct (ltb_number a a E) as [H _]. congruence.
  - rewrite ltb_key, lex_refl by assumption. reflexivity.
Qed.




Lemma finite_number (v : float) : is_finite v = true -> is_nan v = false.
Proof.
  unfold is_finite. destruct (is_nan v); [discriminate | reflexivity].
Qed.

(** ** [Math.min] and [Math.max] *)







(** The smaller and the larger of a number and one that is not below it,
    or is that number itself. *)
Lemma min_ordered (a b : float) :
  is_nan a = false -> (a <? b) = true \/ b = a -> Math.min a b = a.
Proof.
  intros Ha [Hlt | ->]; unfold Math.min.
  - destruct (ltb_number a b Hlt) as [_ Hb]. rewrite Ha, Hb, Hlt.
    reflexivity.
  - rewrite Ha, ltb_irrefl. simpl. destruct (get_sign a); reflexivity.
Qed.

Lemma max_ordered (a b : float) :
  is_nan a = false -> (a <? b) = true \/ b = a -> Math.max a b = b.
Proof.
  intros Ha [Hlt | ->]; unfold Math.max.
  - destruct (ltb_number a b Hlt) as [_ Hb]. rewrite Ha, Hb, Hlt.
    reflexivity.
  - rewrite Ha, ltb_irrefl. simpl. destruct (get_sign a); reflexivity.
Qed.

(** ** Rectangles *)

Lemma union_fresh (r : Rectangle) : union newRectangle r = r.
Proof. reflexivity. Qed.

(** The assertion lets finite numbers pass; the global [isFinite] is one
    reading of it, and it stops NaN. *)
Lemma isNumber_finite (debug : bool) (numeric : float -> bool)
    (values : list float) :
  acceptsFinite numeric ->
  forallb is_finite values = true ->
  Debug.isNumber debug numeric values = Returns tt.
Proof.
  intros Hacc H. unfold Debug.isNumber.
  replace (forallb numeric values) with true;
    [rewrite andb_false_r; reflexivity |].
  induction values as [| v values IH]; [reflexivity |].
  simpl in H. apply andb_prop in H as [Hv Hrest].
  simpl. rewrite (Hacc v Hv). simpl. apply IH. exact Hrest.
Qed.

Lemma isFinite_acceptsFinite : acceptsFinite isFinite.
Proof. intros v H. exact H. Qed.

Lemma isFinite_rejectsNaN : rejectsNaN isFinite.
Proof.
  intros v H. unfold isFinite, is_finite. rewrite H. reflexivity.
Qed.

(** The box of the two corners that [rect] records. *)
Lemma fromPointsXY_two_corners (x0 y0 x1 y1 : float) :
  is_nan x0 = false -> is_nan y0 = false ->
  (x0 <? x1) = true \/ x1 = x0 ->
  (y0 <? y1) = true \/ y1 = y0 ->
  fromPointsXY [x0; y0; x1; y1] = mkRectangle x0 y0 (x1 - x0) (y1 - y0).
Proof.
  intros Hx Hy Hx1 Hy1. unfold fromPointsXY, sweep.
  rewrite (min_ordered x0 x1 Hx Hx1), (min_ordered y0 y1 Hy Hy1),
    (max_ordered x0 x1 Hx Hx1), (max_ordered y0 y1 Hy Hy1).
  reflexivity.
Qed.

(** C3 as stated fails: [rect(5, 5, 0.1, 0.1)] then [fill()] on a fresh
    surface.  The far corner is recorded as 5 + 0.1, which rounds to
    5.1, and the width the pass returns is 5.1 - 5, the number
    0.09999999999999964 and not 0.1.  And [rect(1e16, 0, 1, 1)] records
    the far corner at 1e16 + 1, which rounds to 1e16: the BOUNDS command
    has lost the width before the pass reads it. *)
Lemma C3_rect_fill_width_is_rounded :
  (is_finite 5 = true /\ is_finite tenth = true /\ (0 <=? tenth) = true
   /\ exists g : Graphics,
        rect true isFinite newGraphics 5 5 tenth tenth = Returns g
        /\ onGetLocalBounds (fill g)
           = mkRectangle 5 5 belowTenth belowTenth
        /\ onGetLocalBounds (fill g) <> mkRectangle 5 5 tenth tenth
        /\ (width (onGetLocalBounds (fill g)) <? tenth) = true)
  /\ (is_finite 1e16 = true
      /\ exists g : Graphics,
           rect true isFinite newGraphics 1e16 0 1 1 = Returns g
           /\ mCommandQueue g
              = [mkCommand RECT [VNumber 1e16; VNumber 0; VNumber 1;
                                 VNumber 1];
                 mkCommand BOUNDS [VNumber 1e16; VNumber 0; VNumber 1e16;
                                   VNumber 1]]
           /\ onGetLocalBounds (fill g) = mkRectangle 1e16 0 0 1).
Proof.
  split.
  - split; [reflexivity |]. split; [reflexivity |].
    split; [reflexivity |].
    eexists. split; [vm_compute; reflexivity |].
    split; [vm_compute; reflexivity |].
    split; [| vm_compute; reflexivity].
    intros H. apply (f_equal width) in H. vm_compute in H.
    apply (f_equal (fun v => v <? tenth)) in H. vm_compute in H.
    discriminate H.
  - split; [reflexivity |].
    eexists. split; [vm_compute; reflexivity |].
    split; vm_compute; reflexivity.
Qed.

(** C3, amended: for all finite x, y, w, h whose far corner, as [rect]
    computes it, is not before the near one, [rect(x, y, w, h)] passes its
    assertion in either build, whatever the assertion does with values
    that are not finite, and then [fill()] on a fresh surface makes
    [onGetLocalBounds] return the rectangle with origin (x, y), width
    (x + w) - x and height (y + h) - y, each sum and difference rounded;
    this is the rectangle (x, y, w, h) when the two differences give back
    w and h. *)
Theorem C3_rect_fill_bounds_rounded
    (debug : bool) (numeric : float -> bool) (x y w h : float) :
  acceptsFinite numeric ->
  is_finite x = true -> is_finite y = true ->
  is_finite w = true -> is_finite h = true ->
  (x <? x + w) = true \/ x + w = x ->
  (y <? y + h) = true \/ y + h = y ->
  exists g : Graphics,
    rect debug numeric newGraphics x y w h = Returns g
    /\ onGetLocalBounds (fill g)
       = mkRectangle x y (x + w - x) (y + h - y)
    /\ (x + w - x = w -> y + h - y = h ->
        onGetLocalBounds (fill g) = mkRectangle x y w h).
Proof.
  intros Hacc Fx Fy Fw Fh Hx Hy.
  unfold rect. rewrite (isNumber_finite debug numeric _ Hacc)
    by (simpl; rewrite Fx, Fy, Fw, Fh; reflexivity).
  cbn [bind]. eexists. split; [reflexivity |].
  assert (Hbox : onGetLocalBounds
            (fill (pushCommand
               (pushCommand newGraphics RECT
                  [VNumber x; VNumber y; VNumber w; VNumber h])
               BOUNDS [VNumber x; VNumber y; VNumber (x + w);
                       VNumber (y + h)]))
          = mkRectangle x y (x + w - x) (y + h - y)).
  { unfold onGetLocalBounds, boundsPass, finishPass.
    cbn [fill pushCommand mClipRect mCommandQueue newGraphics app
         fold_left boundsStep type data stepBounds stepFill points
         pushedPoints asNumber newGraphicsPath bounds commit unionPath
         fst snd maxLineWidth lastLineWidth lineMult].
    rewrite (fromPointsXY_two_corners x y (x + w) (y + h)
               (finite_number x Fx) (finite_number y Fy) Hx Hy).
    apply union_fresh. }
  split; [exact Hbox |].
  intros Hw Hh. rewrite Hbox, Hw, Hh. reflexivity.
Qed.

(** [rect(5, 5, 0.5, 0.25)] then [fill()]: the sums 5.5 and 5.25 and the
    differences 0.5 and 0.25 are exact. *)
Lemma C3_rect_fill_bounds_rounded_witness :
  exists g : Graphics,
    rect true isFinite newGraphics 5 5 0.5 0.25 = Returns g
    /\ onGetLocalBounds (fill g) = mkRectangle 5 5 0.5 0.25.
Proof.
  destruct (C3_rect_fill_bounds_rounded true isFinite 5 5 0.5 0.25
              isFinite_acceptsFinite)
    as (g & Hg & _ & Hexact);
    try (vm_compute; reflexivity);
    try (left; vm_compute; reflexivity).
  exists g. split; [exact Hg |].
  apply Hexact; vm_compute; reflexivity.
Defined.

(** ** Cubic curves *)












(** ** Shape scripts *)

Lemma appended_nil (g : Graphics) : appended g [] = g.
Proof. destruct g. unfold appended. simpl. rewrite app_nil_r. reflexivity. Qed.

Lemma appended_app (g : Graphics) (a b : list GraphicsCommand) :
  appended (appended g a) b = appended g (a ++ b).
Proof. unfold appended. simpl. rewrite app_assoc. reflexivity. Qed.

Lemma extended_before (g : Graphics) (cmds : list GraphicsCommand) r :
  extended (appended g cmds) r = extended g (before cmds r).
Proof. destruct r; simpl; [rewrite appended_app |]; reflexivity. Qed.

(** The reset passes both assertions in either build, and records the
    BEGIN_PATH and FILL_STYLE commands only. *)
Lemma resetStyle_appends (debug : bool) (numeric : float -> bool)
    (g : Graphics) :
  acceptsFinite numeric ->
  resetStyle debug numeric g = Returns (appended g resetCommands).
Proof.
  intros Hacc. unfold resetStyle, lineStyle, fillStyle.
  rewrite !(isNumber_finite debug numeric _ Hacc) by reflexivity.
  cbn [bind]. change (0 <=? 0) with true. cbv iota.
  unfold beginPath, pushCommand, appended, resetCommands. simpl.
  rewrite <- app_assoc. reflexivity.
Qed.

Lemma rect_appends (debug : bool) (numeric : float -> bool)
    (g : Graphics) (x y w h : float) :
  rect debug numeric g x y w h =
  if rejected debug numeric x y w h then Throws
  else Returns (appended g (rectCommands x y w h)).
Proof.
  unfold rect, rejected, Debug.isNumber.
  destruct (debug && _); [reflexivity |].
  cbn [bind]. unfold pushCommand, appended, rectCommands. simpl.
  rewrite <- app_assoc. reflexivity.
Qed.

Lemma circle_appends (g : Graphics) (x y r : float) :
  circle g x y r = appended g (circleCommands x y r).
Proof.
  unfold circle, pushCommand, appended, circleCommands. simpl.
  rewrite <- app_assoc. reflexivity.
Qed.

Lemma fill_appends (g : Graphics) : fill g = appended g [fillCommand].
Proof. reflexivity. Qed.

(** The arguments [getArg] shifts off the stream. *)
Lemma getArg_shift (toNumber : string -> float) (k : nat)
    (cmds : list string) :
  getArg toNumber (inr k) cmds = (argument toNumber cmds 0, skipn 1 cmds).
Proof. destruct cmds; reflexivity. Qed.

Lemma getArg_code (toNumber : string -> float) (c : string)
    (cmds : list string) :
  String.prefix "$" c = true ->
  getArg toNumber (inl c) cmds = (codeNumber toNumber c, cmds).
Proof. intros H. unfold getArg, codeNumber. rewrite H. reflexivity. Qed.

Lemma argument_skipn (toNumber : string -> float) (cmds : list string)
    (n k : nat) :
  argument toNumber (skipn n cmds) k = argument toNumber cmds (n + k).
Proof.
  unfold argument. f_equal. revert cmds.
  induction n as [| n IH]; intros cmds; [reflexivity |].
  destruct cmds as [| c cmds]; simpl.
  - destruct k; reflexivity.
  - apply IH.
Qed.

Lemma skipn_skipn_1 (cmds : list string) (n : nat) :
  skipn 1 (skipn n cmds) = skipn (S n) cmds.
Proof.
  revert cmds. induction n as [| n IH]; intros cmds; [reflexivity |].
  destruct cmds as [| c cmds]; [reflexivity |]. simpl. apply IH.
Qed.

(** A code starts with the dollar sign. *)
Lemma code_starts_with_dollar (k : ascii) (c : string) :
  String.prefix (String "$" (String k EmptyString)) c = true ->
  String.prefix "$" c = true.
Proof.
  destruct c as [| a c]; [discriminate |].
  cbn [String.prefix].
  destruct (ascii_dec "$" a); [| discriminate].
  intros _. destruct c; reflexivity.
Qed.

Section Rounds.

Variable debug : bool.
Variable numeric : float -> bool.
Variable toNumber : string -> float.
Hypothesis numeric_finite : acceptsFinite numeric.

Lemma decodeCommand_rect (g : Graphics) (c : string) (cmds : list string) :
  String.prefix "$s" c = false -> String.prefix "$r" c = true ->
  decodeCommand debug numeric toNumber g c cmds
  = (rect debug numeric g (codeNumber toNumber c) (argument toNumber cmds 0)
       (argument toNumber cmds 1) (argument toNumber cmds 2),
     skipn 3 cmds).
Proof.
  intros Hs Hr. unfold decodeCommand. rewrite Hs, Hr.
  rewrite (getArg_code toNumber c cmds (code_starts_with_dollar _ _ Hr)).
  rewrite !getArg_shift, !skipn_skipn_1, !argument_skipn.
  reflexivity.
Qed.

Lemma decodeCommand_circle (g : Graphics) (c : string) (cmds : list string) :
  String.prefix "$s" c = false -> String.prefix "$r" c = false ->
  String.prefix "$c" c = true ->
  decodeCommand debug numeric toNumber g c cmds
  = (Returns (circle g (codeNumber toNumber c) (argument toNumber cmds 0)
                (argument toNumber cmds 1)),
     skipn 2 cmds).
Proof.
  intros Hs Hr Hc. unfold decodeCommand. rewrite Hs, Hr, Hc.
  rewrite (getArg_code toNumber c cmds (code_starts_with_dollar _ _ Hc)).
  rewrite !getArg_shift, !skipn_skipn_1, !argument_skipn.
  reflexivity.
Qed.

Lemma decodeCommand_inert (g : Graphics) (c : string) (cmds : list string) :
  inertCode c ->
  decodeCommand debug numeric toNumber g c cmds = (Returns g, cmds).
Proof.
  intros [Hs | [Hr Hc]]; unfold decodeCommand.
  - rewrite Hs. reflexivity.
  - rewrite Hr, Hc. destruct (String.prefix "$s" c); reflexivity.
Qed.

(** One round of the loop, by the code of its command token. *)
Lemma decodeRound_inert (g : Graphics) (c : string) (cmds : list string) :
  inertCode c ->
  decodeRound debug numeric toNumber g c cmds
  = (Returns (appended g (resetCommands ++ [fillCommand])), cmds).
Proof.
  intros Hc. unfold decodeRound.
  rewrite (resetStyle_appends debug numeric _ numeric_finite),
    (decodeCommand_inert _ c cmds Hc).
  cbn [bind]. rewrite fill_appends, appended_app. reflexivity.
Qed.

Lemma decodeRound_rect (g : Graphics) (c : string) (cmds : list string) :
  String.prefix "$s" c = false -> String.prefix "$r" c = true ->
  let x := codeNumber toNumber c in
  let y := argument toNumber cmds 0 in
  let w := argument toNumber cmds 1 in
  let h := argument toNumber cmds 2 in
  decodeRound debug numeric toNumber g c cmds
  = (if rejected debug numeric x y w h then Throws
     else Returns (appended g (resetCommands ++ rectCommands x y w h
                               ++ [fillCommand])),
     skipn 3 cmds).
Proof.
  intros Hs Hr x y w h. unfold decodeRound.
  rewrite (resetStyle_appends debug numeric _ numeric_finite),
    (decodeCommand_rect _ c cmds Hs Hr).
  rewrite rect_appends. fold x y w h.
  destruct (rejected debug numeric x y w h); [reflexivity |].
  cbn [bind]. rewrite fill_appends, !appended_app. reflexivity.
Qed.

Lemma decodeRound_circle (g : Graphics) (c : string) (cmds : list string) :
  String.prefix "$s" c = false -> String.prefix "$r" c = false ->
  String.prefix "$c" c = true ->
  let x := codeNumber toNumber c in
  let y := argument toNumber cmds 0 in
  let r := argument toNumber cmds 1 in
  decodeRound debug numeric toNumber g c cmds
  = (Returns (appended g (resetCommands ++ circleCommands x y r
                          ++ [fillCommand])),
     skipn 2 cmds).
Proof.
  intros Hs Hr Hc x y r. unfold decodeRound.
  rewrite (resetStyle_appends debug numeric _ numeric_finite),
    (decodeCommand_circle _ c cmds Hs Hr Hc).
  cbn [bind]. rewrite circle_appends, fill_appends, !appended_app.
  reflexivity.
Qed.

(** The loop, one round unfolded. *)
Lemma decodeTokens_cons (g : Graphics) (c : string) (cmds : list string) :
  decodeTokens debug numeric toNumber g (c :: cmds)
  = match fst (decodeRound debug numeric toNumber g c cmds) with
    | Returns g' =>
        decodeTokens debug numeric toNumber g'
          (snd (decodeRound debug numeric toNumber g c cmds))
    | Throws => Throws
    end.
Proof.
  simp decodeTokens.
  destruct (fst (decodeRound debug numeric toNumber g c cmds)); reflexivity.
Qed.

(** Every code is of one of the three kinds. *)
Lemma code_kinds (c : string) :
  inertCode c
  \/ (String.prefix "$s" c = false /\ String.prefix "$r" c = true)
  \/ (String.prefix "$s" c = false /\ String.prefix "$r" c = false
      /\ String.prefix "$c" c = true).
Proof.
  unfold inertCode.
  destruct (String.prefix "$s" c), (String.prefix "$r" c),
    (String.prefix "$c" c); auto.
Qed.

(** The decoder replays the token stream: what the loop returns, or
    throws, is what [replay] says of the stream. *)
Lemma decodeTokens_replays (n : nat) :
  forall (cmds : list string) (g : Graphics),
    (List.length cmds <= n)%nat ->
    exists r,
      replay debug numeric toNumber cmds r
      /\ decodeTokens debug numeric toNumber g cmds = extended g r.
Proof.
  induction n as [| n IH]; intros cmds g Hlen.
  - destruct cmds; [| simpl in Hlen; lia].
    exists (Returns []). split; [constructor |].
    simp decodeTokens. simpl. rewrite appended_nil. reflexivity.
  - destruct cmds as [| c cmds].
    { exists (Returns []). split; [constructor |].
      simp decodeTokens. simpl. rewrite appended_nil. reflexivity. }
    simpl in Hlen. rewrite decodeTokens_cons.
    destruct (code_kinds c) as [Hi | [[Hs Hr] | (Hs & Hr & Hc)]].
    + rewrite (decodeRound_inert g c cmds Hi). cbn [fst snd].
      destruct (IH cmds (appended g (resetCommands ++ [fillCommand])))
        as (r & Hrep & Heq); [lia |].
      eexists. split; [apply replay_inert; eassumption |].
      rewrite Heq. apply extended_before.
    + rewrite (decodeRound_rect g c cmds Hs Hr). cbn [fst snd].
      destruct (rejected debug numeric _ _ _ _) eqn:Hrej.
      * exists Throws. split; [| reflexivity].
        apply replay_rect_throws; assumption.
      * destruct (IH (skipn 3 cmds)
                    (appended g
                       (resetCommands
                        ++ rectCommands (codeNumber toNumber c)
                             (argument toNumber cmds 0)
                             (argument toNumber cmds 1)
                             (argument toNumber cmds 2)
                        ++ [fillCommand])))
          as (r & Hrep & Heq).
        { pose proof (length_skipn 3 cmds). lia. }
        eexists. split; [apply replay_rect; eassumption |].
        rewrite Heq. apply extended_before.
    + rewrite (decodeRound_circle g c cmds Hs Hr Hc). cbn [fst snd].
      destruct (IH (skipn 2 cmds)
                  (appended g
                     (resetCommands
                      ++ circleCommands (codeNumber toNumber c)
                           (argument toNumber cmds 0)
                           (argument toNumber cmds 1)
                      ++ [fillCommand])))
        as (r & Hrep & Heq).
      { pose proof (length_skipn 2 cmds). lia. }
      eexists. split; [apply replay_circle; eassumption |].
      rewrite Heq. apply extended_before.
Qed.

(** A replay throws only in a debug build, at a rectangle code. *)
Lemma replay_throws (cmds : list string) r :
  replay debug numeric toNumber cmds r -> r = Throws ->
  debug = true
  /\ exists c : string, In c cmds /\ String.prefix "$r" c = true.
Proof.
  induction 1 as [| c cmds r Hi Hrep IH | c cmds r Hs Hr Hrej Hrep IH
                  | c cmds Hs Hr Hrej | c cmds r Hs Hr Hc Hrep IH];
    intros Hthrows.
  - discriminate.
  - destruct r; [discriminate |].
    destruct (IH eq_refl) as (Hd & c' & Hin & Hp).
    split; [exact Hd |]. exists c'. split; [right; exact Hin | exact Hp].
  - destruct r; [discriminate |].
    destruct (IH eq_refl) as (Hd & c' & Hin & Hp).
    split; [exact Hd |]. exists c'. split; [| exact Hp].
    right. revert Hin. clear. intros Hin.
    assert (Hincl : forall (n : nat) (l : list string) (s : string),
               In s (skipn n l) -> In s l).
    { induction n as [| n IHn]; intros l s H; [exact H |].
      destruct l as [| a l]; [exact H |]. right. apply IHn. exact H. }
    exact (Hincl _ _ _ Hin).
  - unfold rejected in Hrej. apply andb_prop in Hrej as [Hd _].
    split; [exact Hd |]. exists c. split; [left; reflexivity | exact Hr].
  - destruct r; [discriminate |].
    destruct (IH eq_refl) as (Hd & c' & Hin & Hp).
    split; [exact Hd |]. exists c'. split; [| exact Hp].
    right. revert Hin. clear. intros Hin.
    assert (Hincl : forall (n : nat) (l : list string) (s : string),
               In s (skipn n l) -> In s l).
    { induction n as [| n IHn]; intros l s H; [exact H |].
      destruct l as [| a l]; [exact H |]. right. apply IHn. exact H. }
    exact (Hincl _ _ _ Hin).
Qed.

(** A replay that returns, of a stream that is not empty, starts with the
    style reset and ends with the fill. *)
Lemma replay_returns (cmds : list string) r :
  replay debug numeric toNumber cmds r ->
  forall block, r = Returns block ->
    (cmds = [] /\ block = [])
    \/ exists middle, block = resetCommands ++ middle ++ [fillCommand].
Proof.
  induction 1 as [| c cmds r Hi Hrep IH | c cmds r Hs Hr Hrej Hrep IH
                  | c cmds Hs Hr Hrej | c cmds r Hs Hr Hc Hrep IH];
    intros block Hblock.
  - injection Hblock as <-. left. split; reflexivity.
  - right. destruct r as [rest |]; [| discriminate].
    injection Hblock as <-.
    destruct (IH rest eq_refl) as [[_ ->] | (middle & ->)].
    + exists []. reflexivity.
    + exists ([fillCommand] ++ resetCommands ++ middle). reflexivity.
  - right. destruct r as [rest |]; [| discriminate].
    injection Hblock as <-.
    destruct (IH rest eq_refl) as [[_ ->] | (middle & ->)].
    + exists (rectCommands (codeNumber toNumber c)
                (argument toNumber cmds 0) (argument toNumber cmds 1)
                (argument toNumber cmds 2)).
      reflexivity.
    + exists (rectCommands (codeNumber toNumber c)
                (argument toNumber cmds 0) (argument toNumber cmds 1)
                (argument toNumber cmds 2)
              ++ [fillCommand] ++ resetCommands ++ middle).
      reflexivity.
  - discriminate.
  - right. destruct r as [rest |]; [| discriminate].
    injection Hblock as <-.
    destruct (IH rest eq_refl) as [[_ ->] | (middle & ->)].
    + exists (circleCommands (codeNumber toNumber c)
                (argument toNumber cmds 0) (argument toNumber cmds 1)).
      reflexivity.
    + exists (circleCommands (codeNumber toNumber c)
                (argument toNumber cmds 0) (argument toNumber cmds 1)
              ++ [fillCommand] ++ resetCommands ++ middle).
      reflexivity.
Qed.

End Rounds.

(** The shape [$r10 20 30 40 $c5 6 7 $s] in a debug build: three rounds,
    a rectangle, a circle and a style code. *)
Example decodeShape_sample :
  decodeShape true isFinite sampleNumber newGraphics
    (mkShape "$r10 20 30 40 $c5 6 7 $s")
  = Returns (appended newGraphics
      (resetCommands ++ rectCommands 10 20 30 40 ++ [fillCommand]
       ++ resetCommands ++ circleCommands 5 6 7 ++ [fillCommand]
       ++ resetCommands ++ [fillCommand])).
Proof.
  unfold decodeShape.
  change (split (commands (mkShape "$r10 20 30 40 $c5 6 7 $s")))
    with ["$r10"; "20"; "30"; "40"; "$c5"; "6"; "7"; "$s"]%string.
  rewrite decodeTokens_cons,
    (decodeRound_rect _ _ _ isFinite_acceptsFinite) by reflexivity.
  cbn [fst snd skipn].
  change (rejected true isFinite _ _ _ _) with false. cbv iota.
  rewrite decodeTokens_cons,
    (decodeRound_circle _ _ _ isFinite_acceptsFinite) by reflexivity.
  cbn [fst snd skipn].
  rewrite decodeTokens_cons,
    (decodeRound_inert _ _ _ isFinite_acceptsFinite)
    by (left; reflexivity).
  cbn [fst snd]. simp decodeTokens.
  rewrite !appended_app. vm_compute. reflexivity.
Qed.

(** C9 as stated fails: in a debug build the shape [$r10 20] stops the
    decoder.  The rectangle code finds one token where it takes three, the
    two missing arguments are NaN, and the assertion of [rect] fails
    before the round reaches its [fill()]: no FILL command is appended and
    [fromGCQ] ends with the exception. *)
Lemma C9_rect_short_of_arguments_throws :
  String.prefix "$r" "$r10" = true
  /\ is_nan (argument sampleNumber ["20"%string] 1) = true
  /\ decodeShape true isFinite sampleNumber newGraphics (mkShape "$r10 20")
     = Throws
  /\ fromGCQ true isFinite sampleNumber (mkDocument [mkShape "$r10 20"])
     = Throws.
Proof.
  assert (H : decodeShape true isFinite sampleNumber newGraphics
                (mkShape "$r10 20") = Throws).
  { unfold decodeShape.
    change (split (commands (mkShape "$r10 20")))
      with ["$r10"; "20"]%string.
    rewrite decodeTokens_cons,
      (decodeRound_rect _ _ _ isFinite_acceptsFinite) by reflexivity.
    reflexivity. }
  split; [reflexivity |]. split; [reflexivity |].
  split; [exact H |].
  unfold fromGCQ. cbn [shapes fold_left bind]. exact H.
Qed.

(** C9, amended: for every build, every reading of number texts, every
    surface and every shape, the decoder replays the shape's tokens round
    by round as [replay] says: each round appends the style reset
    (BEGIN_PATH and the white FILL_STYLE, no LINE_STYLE), then for a [$r]
    code the commands of [rect] on the number after the code and the next
    three tokens, for a [$c] code the commands of [circle] on the number
    after the code and the next two tokens, for any other code nothing,
    and then FILL; a round fails, before its FILL, exactly when its code
    is [$r], the build is a debug build and an argument of [rect] does not
    pass the assertion, as the NaN of a missing token does not.  So the
    decoder throws only in a debug build on a shape with a [$r] token, and
    when it returns, what it has appended starts with the style reset and
    ends with FILL. *)
Theorem C9_decoder_replays_tokens
    (debug : bool) (numeric : float -> bool) (toNumber : string -> float)
    (g : Graphics) (shape : Shape) :
  acceptsFinite numeric ->
  (exists r,
     replay debug numeric toNumber (split (commands shape)) r
     /\ decodeShape debug numeric toNumber g shape = extended g r)
  /\ (decodeShape debug numeric toNumber g shape = Throws ->
      debug = true
      /\ exists c : string,
           In c (split (commands shape))
           /\ String.prefix "$r" c = true)
  /\ (forall g' : Graphics,
        decodeShape debug numeric toNumber g shape = Returns g' ->
        exists middle : list GraphicsCommand,
          g' = appended g (resetCommands ++ middle ++ [fillCommand])).
Proof.
  intros Hacc. unfold decodeShape.
  destruct (decodeTokens_replays debug numeric toNumber Hacc
              (List.length (split (commands shape)))
              (split (commands shape)) g (le_n _)) as (r & Hrep & Heq).
  split; [exists r; split; assumption |].
  rewrite Heq. split.
  - intros Hthrows. destruct r; [discriminate |].
    exact (replay_throws debug numeric toNumber _ _ Hrep eq_refl).
  - intros g' Hret. destruct r as [block |]; [| discriminate].
    injection Hret as <-.
    destruct (replay_returns debug numeric toNumber _ _ Hrep block eq_refl)
      as [[Hnil _] | (middle & ->)].
    + contradiction (split_not_nil _ Hnil).
    + exists middle. reflexivity.
Qed.

(** The shape [$r10 20 30 40 $c5 6 7 $s] in a debug build returns, and
    what it appends to a fresh surface starts with the reset and ends with
    FILL. *)
Lemma C9_decoder_replays_tokens_witness :
  exists (g' : Graphics) (middle : list GraphicsCommand),
    decodeShape true isFinite sampleNumber newGraphics
      (mkShape "$r10 20 30 40 $c5 6 7 $s") = Returns g'
    /\ g' = appended newGraphics
              (resetCommands ++ middle ++ [fillCommand]).
Proof.
  destruct (C9_decoder_replays_tokens true isFinite sampleNumber
              newGraphics (mkShape "$r10 20 30 40 $c5 6 7 $s")
              isFinite_acceptsFinite) as (_ & _ & Hret).
  destruct (Hret _ decodeShape_sample) as (middle & Hmiddle).
  eexists _, middle. split; [exact decodeShape_sample | exact Hmiddle].
Defined.

(** * Further properties over binary64 *)

Lemma eqb_key (a b : float) :
  is_nan a = false -> is_nan b = false ->
  (a =? b) =
  match lex (key (FloatOps.Prim2SF a)) (key (FloatOps.Prim2SF b)) with
  | Eq => true
  | _ => false
  end.
Proof.
  intros Ha Hb. rewrite FloatAxioms.eqb_spec. unfold SFeqb.
  rewrite SFcompare_key by (apply number_notNan; assumption).
  destruct (lex _ _); reflexivity.
Qed.

Lemma ltb_not_eqb (a b : float) : (a <? b) = true -> (b =? a) = false.
Proof.
  intros H. destruct (ltb_number a b H) as [Ha Hb].
  rewrite ltb_key in H by assumption. rewrite eqb_key by assumption.
  rewrite (lex_antisym (key (FloatOps.Prim2SF a)) (key (FloatOps.Prim2SF b))).
  destruct (lex _ _); try discriminate; reflexivity.
Qed.

Lemma rect_finite (debug : bool) (numeric : float -> bool)
    (g : Graphics) (x y w h : float) :
  acceptsFinite numeric ->
  forallb is_finite [x; y; w; h] = true ->
  rect debug numeric g x y w h
  = Returns (appended g (rectCommands x y w h)).
Proof.
  intros Hacc Hfin. unfold rect.
  rewrite (isNumber_finite debug numeric _ Hacc Hfin). cbn [bind].
  unfold pushCommand, appended, rectCommands. simpl.
  rewrite <- app_assoc. reflexivity.
Qed.

(** Two rectangles, each filled in a path of its own on a fresh surface:
    the local bounds are the union of the box of the first with the box of
    the second, each box with its sides as the pass computes them. *)
Theorem two_paths_union_binary64
    (debug : bool) (numeric : float -> bool)
    (xa ya wa ha xb yb wb hb : float) :
  acceptsFinite numeric ->
  forallb is_finite [xa; ya; wa; ha; xb; yb; wb; hb] = true ->
  (xa <? xa + wa) = true \/ xa + wa = xa ->
  (ya <? ya + ha) = true \/ ya + ha = ya ->
  (xb <? xb + wb) = true \/ xb + wb = xb ->
  (yb <? yb + hb) = true \/ yb + hb = yb ->
  exists g1 g2 : Graphics,
    rect debug numeric (beginPath newGraphics) xa ya wa ha = Returns g1
    /\ rect debug numeric (beginPath (fill g1)) xb yb wb hb = Returns g2
    /\ onGetLocalBounds (fill g2)
       = union (mkRectangle xa ya (xa + wa - xa) (ya + ha - ya))
               (mkRectangle xb yb (xb + wb - xb) (yb + hb - yb)).
Proof.
  intros Hacc Hfin Hxa Hya Hxb Hyb.
  cbn [forallb] in Hfin.
  repeat (apply andb_prop in Hfin as [?F Hfin]).
  eexists _, _.
  split; [apply (rect_finite _ _ _ _ _ _ _ Hacc); cbn [forallb];
          rewrite F, F0, F1, F2; reflexivity |].
  split; [apply (rect_finite _ _ _ _ _ _ _ Hacc); cbn [forallb];
          rewrite F3, F4, F5, F6; reflexivity |].
  unfold onGetLocalBounds, boundsPass, finishPass.
  cbn [fill beginPath pushCommand appended rectCommands mClipRect
       mCommandQueue newGraphics app fold_left boundsStep type data
       stepBounds stepFill points pushedPoints asNumber newGraphicsPath
       bounds commit unionPath fst snd maxLineWidth lastLineWidth
       lineMult].
  rewrite (fromPointsXY_two_corners xa ya (xa + wa) (ya + ha))
    by (try apply finite_number; assumption).
  rewrite (fromPointsXY_two_corners xb yb (xb + wb) (yb + hb))
    by (try apply finite_number; assumption).
  rewrite union_fresh. reflexivity.
Qed.

(** The boxes (0, 0, 10, 20) and (30, 5, 10, 10): the bounds run from
    (0, 0) to (40, 20). *)
Lemma two_paths_union_binary64_witness :
  exists g1 g2 : Graphics,
    rect true isFinite (beginPath newGraphics) 0 0 10 20 = Returns g1
    /\ rect true isFinite (beginPath (fill g1)) 30 5 10 10 = Returns g2
    /\ onGetLocalBounds (fill g2) = mkRectangle 0 0 40 20.
Proof.
  destruct (two_paths_union_binary64 true isFinite 0 0 10 20 30 5 10 10
              isFinite_acceptsFinite)
    as (g1 & g2 & H1 & H2 & Hb);
    try reflexivity; try (left; reflexivity).
  exists g1, g2. split; [exact H1 |]. split; [exact H2 |].
  rewrite Hb. reflexivity.
Defined.

(** A stroke without any line style takes a line width of 1 and the
    multiplier 0.5: [rect(x, y, w, h)] then [stroke()] on a fresh surface
    gives the box of the rectangle, with its sides as the pass computes
    them, moved by 0.5 towards the origin of the axes and grown by 1. *)
Theorem rect_stroke_default_width_binary64
    (debug : bool) (numeric : float -> bool) (x y w h : float) :
  acceptsFinite numeric ->
  forallb is_finite [x; y; w; h] = true ->
  (x <? x + w) = true \/ x + w = x ->
  (y <? y + h) = true \/ y + h = y ->
  exists g : Graphics,
    rect debug numeric newGraphics x y w h = Returns g
    /\ onGetLocalBounds (stroke g)
       = mkRectangle (x - 0.5) (y - 0.5)
                     (x + w - x + 1) (y + h - y + 1).
Proof.
  intros Hacc Hfin Hx Hy.
  eexists. split; [apply rect_finite; [exact Hacc | exact Hfin] |].
  cbn [forallb] in Hfin.
  repeat (apply andb_prop in Hfin as [?F Hfin]).
  unfold onGetLocalBounds, boundsPass, finishPass.
  cbn [stroke pushCommand appended rectCommands mClipRect
       mCommandQueue newGraphics app fold_left boundsStep type data
       stepBounds stepStroke points pushedPoints asNumber newGraphicsPath
       bounds commit unionPath fst snd maxLineWidth lastLineWidth
       lineMult List.length Nat.ltb Nat.leb].
  rewrite (fromPointsXY_two_corners x y (x + w) (y + h))
    by (try apply finite_number; assumption).
  rewrite union_fresh. reflexivity.
Qed.

(** The rectangle of scenario A, stroked. *)
Lemma rect_stroke_default_width_binary64_witness :
  exists g : Graphics,
    rect true isFinite newGraphics 0 0 10 20 = Returns g
    /\ onGetLocalBounds (stroke g) = mkRectangle (-0.5) (-0.5) 11 21.
Proof.
  destruct (rect_stroke_default_width_binary64 true isFinite 0 0 10 20
              isFinite_acceptsFinite)
    as (g & Hg & Hb); try reflexivity; try (left; reflexivity).
  exists g. split; [exact Hg |]. rewrite Hb. reflexivity.
Defined.

Lemma ltb_not_leb (a b : float) : (a <? b) = true -> (b <=? a) = false.
Proof.
  intros H. destruct (ltb_number a b H) as [Ha Hb].
  rewrite ltb_key in H by assumption. rewrite leb_key by assumption.
  rewrite (lex_antisym (key (FloatOps.Prim2SF a)) (key (FloatOps.Prim2SF b))).
  destruct (lex _ _); try discriminate; reflexivity.
Qed.

Lemma lineStyle_positive_binary64
    (debug : bool) (numeric : float -> bool) (g : Graphics)
    (lineWidth color alpha : float) (caps joints : string)
    (miterLimit : float) :
  acceptsFinite numeric ->
  forallb is_finite [lineWidth; color; alpha; miterLimit] = true ->
  (0 <? lineWidth) = true ->
  lineStyle debug numeric g lineWidth color alpha caps joints miterLimit
  = Returns (appended g
      [mkCommand LINE_STYLE
         [VNumber lineWidth; VNumber color; VNumber alpha;
          VString caps; VString joints; VNumber miterLimit]]).
Proof.
  intros Hacc Hfin Hw. unfold lineStyle.
  rewrite (isNumber_finite debug numeric _ Hacc Hfin). cbn [bind].
  rewrite (ltb_not_leb 0 lineWidth Hw). reflexivity.
Qed.

(** One line style of positive width and a circle, then [stroke()], on a
    fresh surface: the local bounds are the box of the two corners the
    circle records, grown on every side by the width times the multiplier
    of the joints (1 for miter, 0.5 for any other), and it makes no
    difference whether the style is set before the circle or between the
    circle and the stroke. *)
Theorem circle_stroke_styled_binary64
    (debug : bool) (numeric : float -> bool)
    (x y radius lineWidth color alpha : float)
    (caps joints : string) (miterLimit : float) :
  acceptsFinite numeric ->
  forallb is_finite [lineWidth; color; alpha; miterLimit] = true ->
  (0 <? lineWidth) = true ->
  is_nan (x - radius) = false -> is_nan (y - radius) = false ->
  (x - radius <? x + radius) = true \/ x + radius = x - radius ->
  (y - radius <? y + radius) = true \/ y + radius = y - radius ->
  let m := lineWidth * jointMultiplier joints in
  let inflated :=
    mkRectangle (x - radius - m) (y - radius - m)
                (x + radius - (x - radius) + 2 * m)
                (y + radius - (y - radius) + 2 * m) in
  (exists g : Graphics,
     lineStyle debug numeric newGraphics lineWidth color alpha caps
       joints miterLimit = Returns g
     /\ onGetLocalBounds (stroke (circle g x y radius)) = inflated)
  /\ (exists g : Graphics,
        lineStyle debug numeric (circle newGraphics x y radius)
          lineWidth color alpha caps joints miterLimit = Returns g
        /\ onGetLocalBounds (stroke g) = inflated).
Proof.
  intros Hacc Hfin Hw Hnx Hny Hx Hy m inflated.
  pose proof (ltb_not_eqb 0 lineWidth Hw) as Hzero.
  split; eexists;
    (split; [apply lineStyle_positive_binary64; assumption |]);
    unfold onGetLocalBounds, boundsPass, finishPass;
    cbn [stroke circle pushCommand appended mClipRect
         mCommandQueue newGraphics app fold_left boundsStep type data
         stepBounds stepStroke stepLineStyle points pushedPoints asNumber
         newGraphicsPath bounds commit unionPath fst snd maxLineWidth
         lastLineWidth lineMult List.length Nat.ltb Nat.leb
         getNumber getString nth_error];
    rewrite Hw, Hzero;
    rewrite (fromPointsXY_two_corners (x - radius) (y - radius)
               (x + radius) (y + radius)) by assumption;
    rewrite union_fresh; unfold inflated, m, jointMultiplier, inflate;
    cbn [Binary64.x Binary64.y width height];
    destruct (String.eqb joints JointStyle.MITER); reflexivity.
Qed.

(** The circle of radius 10 around (0, 0) with a round-jointed line of
    width 4: the bounds run from (-12, -12) to (12, 12). *)
Lemma circle_stroke_styled_binary64_witness :
  exists g : Graphics,
    lineStyle true isFinite newGraphics 4 0 1 CapsStyle.ROUND
      JointStyle.ROUND 3 = Returns g
    /\ onGetLocalBounds (stroke (circle g 0 0 10))
       = mkRectangle (-12) (-12) 24 24.
Proof.
  destruct (circle_stroke_styled_binary64 true isFinite 0 0 10 4 0 1
              CapsStyle.ROUND JointStyle.ROUND 3 isFinite_acceptsFinite)
    as [(g & Hg & Hb) _];
    try reflexivity; try (left; reflexivity).
  exists g. split; [exact Hg |]. rewrite Hb. reflexivity.
Defined.

(** The tokens a command code takes.  A [$r] token gives the first
    argument of [rect] by the text after its two-character code and takes
    the next three tokens of the stream for the rest; a [$c] token does
    the same for [circle] with the next two.  Where the stream ends
    early, the missing arguments are NaN: [circle] records them, and in a
    debug build, with an assertion that stops NaN, [rect] throws. *)
Theorem decodeCommand_consumes_binary64
    (debug : bool) (numeric : float -> bool) (toNumber : string -> float)
    (g : Graphics) (c : string) (rest : list string) :
  rejectsNaN numeric ->
  (String.prefix "$r" c = true ->
   decodeCommand debug numeric toNumber g c rest
   = (rect debug numeric g (codeNumber toNumber c) (argument toNumber rest 0)
        (argument toNumber rest 1) (argument toNumber rest 2),
      skipn 3 rest)
   /\ ((List.length rest < 3)%nat ->
       is_nan (argument toNumber rest 2) = true
       /\ (debug = true ->
           fst (decodeCommand debug numeric toNumber g c rest) = Throws)))
  /\ (String.prefix "$c" c = true ->
      decodeCommand debug numeric toNumber g c rest
      = (Returns (circle g (codeNumber toNumber c)
                    (argument toNumber rest 0) (argument toNumber rest 1)),
         skipn 2 rest)).
Proof.
  intros Hrej.
  split; intros H; destruct (code_prefixes _ c H) as [_ Hother].
  - assert (Hs : String.prefix "$s" c = false)
      by (apply Hother; discriminate).
    rewrite (decodeCommand_rect debug numeric toNumber g c rest Hs H).
    split; [reflexivity |]. intros Hlen.
    assert (Hnan : is_nan (argument toNumber rest 2) = true).
    { unfold argument.
      destruct rest as [| t0 [| t1 [| t2 rest]]];
        try reflexivity. simpl in Hlen. lia. }
    split; [exact Hnan |]. intros ->. cbn [fst].
    rewrite rect_appends. unfold rejected. cbn [forallb].
    rewrite (Hrej _ Hnan), !andb_false_r. reflexivity.
  - assert (Hs : String.prefix "$s" c = false)
      by (apply Hother; discriminate).
    assert (Hr : String.prefix "$r" c = false)
      by (apply Hother; discriminate).
    exact (decodeCommand_circle debug numeric toNumber g c rest Hs Hr H).
Qed.

(** A rectangle code with one token left in the stream, in a debug
    build. *)
Lemma decodeCommand_consumes_binary64_witness :
  fst (decodeCommand true isFinite sampleNumber newGraphics "$r10"
         ["20"%string]) = Throws
  /\ snd (decodeCommand true isFinite sampleNumber newGraphics "$r10"
            ["20"%string]) = [].
Proof.
  destruct (decodeCommand_consumes_binary64 true isFinite sampleNumber
              newGraphics "$r10" ["20"%string] isFinite_rejectsNaN)
    as [Hr _].
  destruct (Hr eq_refl) as [Heq Hshort].
  split.
  - apply Hshort; [simpl; lia | reflexivity].
  - rewrite Heq. reflexivity.
Defined.

(** From the script to the bounds.  A document of one shape whose text
    splits into a [$r] token and three more tokens, all four read as
    finite numbers with the far corner not before the near one, decodes in
    either build to one round (the style reset, the commands of [rect],
    the fill), and the local bounds of the decoded surface are the box of
    the two corners [rect] records. *)
Theorem decoded_rect_bounds_binary64
    (debug : bool) (numeric : float -> bool) (toNumber : string -> float)
    (text c a1 a2 a3 : string) :
  acceptsFinite numeric ->
  split text = [c; a1; a2; a3] ->
  String.prefix "$r" c = true ->
  let x := codeNumber toNumber c in
  let y := toNumber a1 in
  let w := toNumber a2 in
  let h := toNumber a3 in
  forallb is_finite [x; y; w; h] = true ->
  (x <? x + w) = true \/ x + w = x ->
  (y <? y + h) = true \/ y + h = y ->
  exists g : Graphics,
    fromGCQ debug numeric toNumber (mkDocument [mkShape text]) = Returns g
    /\ mCommandQueue g
       = resetCommands ++ rectCommands x y w h ++ [fillCommand]
    /\ onGetLocalBounds g = mkRectangle x y (x + w - x) (y + h - y).
Proof.
  intros Hacc Htext Hr x y w h Hfin Hx Hy.
  destruct (code_prefixes _ c Hr) as [_ Hother].
  assert (Hs : String.prefix "$s" c = false)
    by (apply Hother; discriminate).
  assert (Hrej : rejected debug numeric x y w h = false).
  { pose proof (rect_finite debug numeric newGraphics x y w h Hacc Hfin)
      as Hrect.
    rewrite rect_appends in Hrect.
    destruct (rejected debug numeric x y w h);
      [discriminate | reflexivity]. }
  assert (Hg : fromGCQ debug numeric toNumber (mkDocument [mkShape text])
               = Returns (appended newGraphics
                   (resetCommands ++ rectCommands x y w h
                    ++ [fillCommand]))).
  { unfold fromGCQ, decodeShape. cbn [shapes fold_left bind commands].
    rewrite Htext, decodeTokens_cons.
    rewrite (decodeRound_rect debug numeric toNumber Hacc newGraphics c
               [a1; a2; a3] Hs Hr).
    cbn [fst snd skipn].
    change (argument toNumber [a1; a2; a3] 0) with y.
    change (argument toNumber [a1; a2; a3] 1) with w.
    change (argument toNumber [a1; a2; a3] 2) with h.
    fold x. rewrite Hrej. simp decodeTokens. reflexivity. }
  eexists. split; [exact Hg |]. split; [reflexivity |].
  cbn [forallb] in Hfin.
  repeat (apply andb_prop in Hfin as [?F Hfin]).
  unfold onGetLocalBounds, boundsPass, finishPass.
  cbn [pushCommand appended rectCommands resetCommands fillCommand
       mClipRect mCommandQueue newGraphics app fold_left boundsStep type
       data stepBounds stepFill points pushedPoints asNumber
       newGraphicsPath bounds commit unionPath fst snd maxLineWidth
       lastLineWidth lineMult].
  rewrite (fromPointsXY_two_corners x y (x + w) (y + h))
    by (try apply finite_number; assumption).
  apply union_fresh.
Qed.

(** The script of scenario A. *)
Lemma decoded_rect_bounds_binary64_witness :
  exists g : Graphics,
    fromGCQ true isFinite sampleNumber
      (mkDocument [mkShape "$r0 0 10 20"]) = Returns g
    /\ onGetLocalBounds g = mkRectangle 0 0 10 20.
Proof.
  destruct (decoded_rect_bounds_binary64 true isFinite sampleNumber
              "$r0 0 10 20" "$r0" "0" "10" "20" isFinite_acceptsFinite)
    as (g & Hg & _ & Hb);
    try reflexivity; try (left; reflexivity).
  exists g. split; [exact Hg |]. rewrite Hb. reflexivity.
Defined.

End Binary64Properties.
